(** * topic-gap: the keyword-gap report of [app.py]

    [app.py] is one function, [main]: it merges the uploaded keyword-ranking
    exports with pandas, checks the required columns, removes duplicate
    keywords, filters by ranking position and builds one summary row per
    competitor URL.  This file embeds the data flow of [main] stage by stage
    and proves the properties of the stages.

    Conventions of the embedding.
    - A number is the exact value of an int64 or float64 cell, a rational
      ([Q]).  Comparisons of such values are exact and are computed here.
      Additions, divisions and roundings are not: an int64 sum wraps around
      and a float64 result is rounded, so [Series.sum], [Series.mean] and
      [round] belong to the library interface and are not computed by the
      model.
    - A cell read from a CSV file is a missing value ([NaN]), a text or a
      number.  The columns [Keyword], [Domain] and [Competitor URL] are text
      columns: a record holds a text or a missing value there
      ([text_columns] says that a frame is of this kind).
    - The pandas/numpy routines taken as an interface ([Pandas]) are: the
      text-to-number parser behind [pd.to_numeric], the rendering of a
      number inside an f-string, the unstable descending argsort behind the
      one-column [sort_values], and the three arithmetic routines above.

    Part I is the model, Part II the lemmas about it, Part III the claims of
    the specification, each with a run on a concrete table, Part IV further
    properties. *)

From Stdlib Require Import List String Ascii Bool Arith ZArith QArith Qround.
From Stdlib Require Import Lia Lqa Permutation Sorted FinFun.
From Stdlib Require Import OrderedTypeEx DecimalString.
Import ListNotations.

Set Implicit Arguments.
Local Close Scope Q_scope.
Local Open Scope string_scope.
Local Open Scope list_scope.

(** * Part I: the model *)

(** ** Exceptions and results *)

(** What a [KeyError] names: a column label that the frame lacks, or the
    NaN that [idxmax] returns for a column without a number and that
    [.loc] then looks up. *)
Inductive Key : Type :=
| Label (column : string)
| NaNKey.

(** The exceptions pandas and Python raise on the paths of [main]. *)
Inductive Exn : Type :=
| KeyError (key : Key)
| JoinTypeError                (* [", ".join] over a list with a non-text item *)
| MeanTypeError.               (* [mean] over a column that holds a text *)

Inductive Result (A : Type) : Type :=
| Ok (a : A)
| Raise (e : Exn).

Arguments Ok {A} a.
Arguments Raise {A} e.

Definition bind {A B : Type} (m : Result A) (k : A -> Result B) : Result B :=
  match m with
  | Ok a => k a
  | Raise e => Raise e
  end.

Notation "x <- m ;; k" := (bind m (fun x => k))
  (at level 61, m at next level, right associativity).

Fixpoint mapM {A B : Type} (f : A -> Result B) (l : list A) : Result (list B) :=
  match l with
  | [] => Ok []
  | x :: l' => y <- f x ;; ys <- mapM f l' ;; Ok (y :: ys)
  end.

(** ** Stable sorting

    [sort_values] over several columns is a stable sort (pandas sorts the
    factorised keys with a counting sort or a merge sort).  A stable sort
    has one possible result, which insertion from the right computes. *)
Section StableSort.
Context {A : Type} (leb : A -> A -> bool).

Fixpoint insert_sorted (x : A) (l : list A) : list A :=
  match l with
  | [] => [x]
  | y :: l' => if leb x y then x :: y :: l' else y :: insert_sorted x l'
  end.

Fixpoint stable_sort (l : list A) : list A :=
  match l with
  | [] => []
  | x :: l' => insert_sorted x (stable_sort l')
  end.

End StableSort.

(** ** Dropping duplicates

    [drop_duplicates(subset=[c], keep='first')] scans the rows in order and
    keeps a row when its key has not been seen before. *)
Section DropDuplicates.
Context {A K : Type} (key : A -> K) (eqb : K -> K -> bool).

Fixpoint drop_seen (seen : list K) (l : list A) : list A :=
  match l with
  | [] => []
  | x :: l' =>
      if existsb (eqb (key x)) seen then drop_seen seen l'
      else x :: drop_seen (key x :: seen) l'
  end.

Definition drop_duplicates (l : list A) : list A := drop_seen [] l.

End DropDuplicates.

(** ** Order of text keys

    Python compares text by code points; on UTF-8 bytes this is the
    lexicographic order of [String.compare].  A missing value sorts last
    ([na_position='last']) and, in [drop_duplicates], equals itself. *)
Definition text_compare (a b : option string) : comparison :=
  match a, b with
  | Some x, Some y => String.compare x y
  | Some _, None => Lt
  | None, Some _ => Gt
  | None, None => Eq
  end.

Definition text_eqb (a b : option string) : bool :=
  match a, b with
  | Some x, Some y => String.eqb x y
  | None, None => true
  | _, _ => false
  end.

(** Elementwise [==] of two text cells: a missing value equals nothing. *)
Definition text_equal (a b : option string) : bool :=
  match a, b with
  | Some x, Some y => String.eqb x y
  | _, _ => false
  end.

(** ** Cells, frames and the Merger *)

(** A cell of a frame read by [pd.read_csv]. *)
Inductive Cell : Type :=
| NaN
| Text (s : string)
| Num (q : Q).

(** A frame: its column labels and its rows, each row aligned with the
    labels. *)
Record DataFrame : Type := mkFrame {
  columns : list string;
  rows : list (list Cell)
}.

(** [row[c]] on a row of a frame with labels [cols]; [None] when the frame
    has no such column. *)
Fixpoint cell_at (cols : list string) (cells : list Cell) (c : string)
  : option Cell :=
  match cols, cells with
  | k :: cols', v :: cells' =>
      if String.eqb k c then Some v else cell_at cols' cells' c
  | _, _ => None
  end.

Definition has_column (cols : list string) (c : string) : bool :=
  existsb (String.eqb c) cols.

(** The labels of [pd.concat(csv_list)]: the union of the inputs' labels in
    order of first appearance ([join='outer'], [sort=False]). *)
Definition column_union (csv_list : list DataFrame) : list string :=
  drop_duplicates (fun c : string => c) String.eqb (flat_map columns csv_list).

(** A row of [df] laid out on the labels [cols]: a label that [df] lacks
    gets [NaN]. *)
Definition reindex (cols : list string) (df : DataFrame) (cells : list Cell)
  : list Cell :=
  map (fun c => match cell_at (columns df) cells c with
                | Some v => v
                | None => NaN
                end) cols.

(** [pd.concat(csv_list, ignore_index=True)] (line 35).  On frames that
    [pd.read_csv] returned, and at least one of them, it does not raise: the
    [except] branch of lines 39-41 is not taken. *)
Definition concat (csv_list : list DataFrame) : DataFrame :=
  let cols := column_union csv_list in
  {| columns := cols;
     rows := flat_map (fun df => map (reindex cols df) (rows df)) csv_list |}.

(** ** Records *)

(** The seven fields [main] reads.  [V] is the type of the [Search Volume]
    cells and [P] the type of the two position cells: [Cell] as read, and
    [option Q] once [pd.to_numeric(..., errors='coerce')] has replaced the
    column.  [Keyword Difficulty] is never coerced and stays a [Cell]. *)
Record Row (V P : Type) : Type := mkRow {
  Keyword : option string;
  Search_Volume : V;
  Keyword_Difficulty : Cell;
  Domain : option string;
  Domain_Position : P;
  Competitor_URL : option string;
  Competitor_Position : P
}.

(** A cell of a text column: a text or a missing value.  A number there
    (a column of [Keyword], [Domain] or [Competitor URL] in which a cell
    parses as a number) is outside the record of the data model: the
    program would sort and group by the number, and [join] would raise on
    it, while the view reads it as missing.  The properties of [main] that
    depend on the cells of these columns are stated for the frames without
    such a cell ([text_columns] below). *)
Definition text_of (c : option Cell) : option string :=
  match c with
  | Some (Text s) => Some s
  | _ => None
  end.

Definition cell_of (c : option Cell) : Cell :=
  match c with
  | Some v => v
  | None => NaN
  end.

(** The record view of one row of a frame. *)
Definition record_of (cols : list string) (cells : list Cell) : Row Cell Cell :=
  let at_ := cell_at cols cells in
  {| Keyword := text_of (at_ "Keyword");
     Search_Volume := cell_of (at_ "Search Volume");
     Keyword_Difficulty := cell_of (at_ "Keyword Difficulty");
     Domain := text_of (at_ "Domain");
     Domain_Position := cell_of (at_ "Domain Position");
     Competitor_URL := text_of (at_ "Competitor URL");
     Competitor_Position := cell_of (at_ "Competitor Position") |}.

Definition records (df : DataFrame) : list (Row Cell Cell) :=
  map (record_of (columns df)) (rows df).

(** ** The Validator (lines 44-48) *)

Definition required_columns : list string :=
  ["Keyword"; "Search Volume"; "Keyword Difficulty"; "Domain";
   "Domain Position"; "Competitor URL"].

Definition missing_columns (merged_df : DataFrame) : list string :=
  filter (fun col => negb (has_column (columns merged_df) col)) required_columns.

(** [repr] of a list of texts that hold no quote and no backslash, as the
    required column names do. *)
Definition repr_list (l : list string) : string :=
  ("[" ++ String.concat ", " (map (fun s => "'" ++ s ++ "'") l) ++ "]")%string.

Definition missing_columns_message (missing : list string) : string :=
  ("The following required columns are missing in the CSV files: "
   ++ repr_list missing)%string.

Definition missing_position_message : string :=
  "The column 'Competitor Position' is missing.".

(** ** The Deduplicator (lines 55-57) *)

(** The order of [sort_values(by=['Domain', 'Keyword'], ascending=[True, True])]. *)
Definition key_leb {V P : Type} (a b : Row V P) : bool :=
  match text_compare (Domain a) (Domain b) with
  | Lt => true
  | Gt => false
  | Eq => match text_compare (Keyword a) (Keyword b) with
          | Gt => false
          | _ => true
          end
  end.

Definition Deduplicator {V P : Type} (merged_df : list (Row V P))
  : list (Row V P) :=
  let sorted_df := stable_sort key_leb merged_df in
  drop_duplicates (@Keyword V P) text_eqb sorted_df.

(** ** Numbers *)

Definition Qltb (x y : Q) : bool := negb (Qle_bool y x).

(** Elementwise [a > b] of two numeric cells: false when one is missing. *)
Definition gt (a b : option Q) : bool :=
  match a, b with
  | Some x, Some y => Qltb y x
  | _, _ => false
  end.

(** Elementwise [a != b]: true when one is missing. *)
Definition ne (a b : option Q) : bool :=
  match a, b with
  | Some x, Some y => negb (Qeq_bool x y)
  | _, _ => true
  end.

(** The order of [sort_values(by='Search Volume', ascending=False)]:
    descending, missing values last. *)
Definition volume_geb (a b : option Q) : bool :=
  match a, b with
  | Some x, Some y => Qle_bool y x
  | Some _, None => true
  | None, Some _ => false
  | None, None => true
  end.

(** [l.take(indexer)]. *)
Definition take {A : Type} (indexer : list nat) (l : list A) : list A :=
  flat_map (fun i => match nth_error l i with
                     | Some x => [x]
                     | None => []
                     end) indexer.

(** The cells of a column that was never coerced, as the numbers a
    reduction reads; a text among them makes the reduction raise. *)
Fixpoint numbers (l : list Cell) : Result (list (option Q)) :=
  match l with
  | [] => Ok []
  | NaN :: l' => qs <- numbers l' ;; Ok (None :: qs)
  | Num q :: l' => qs <- numbers l' ;; Ok (Some q :: qs)
  | Text _ :: l' => Raise MeanTypeError
  end.

(** ** The library interface *)

Class Pandas : Type := {
  (* the parser of [pd.to_numeric] on a text; [None] when it rejects it *)
  str_to_num : string -> option Q;
  (* [str] of a number, as an f-string renders it *)
  num_to_str : Q -> string;
  (* the indexer of a one-column descending sort (numpy's default
     [quicksort], which is not stable) *)
  argsort_desc : list (option Q) -> list nat;
  (* [Series.sum()] of the Search Volume column ([skipna=True]): numpy's
     addition of the values that are not missing, at the dtype the column
     has in the run (int64, which wraps around, or float64, which rounds) *)
  series_sum : list (option Q) -> Q;
  (* [Series.mean()] of the Keyword Difficulty column ([skipna=True]), a
     float64 division; [None] is NaN *)
  series_mean : list (option Q) -> option Q;
  (* [round(x, 2)] of a float64 scalar *)
  round_2 : Q -> Q
}.

(** What the indexer guarantees: it lists every position once, and the keys
    taken in its order are descending, missing values last.  The order of
    equal keys is not fixed. *)
Class PandasLaws (L : Pandas) : Prop := {
  argsort_desc_perm : forall keys,
    Permutation (argsort_desc keys) (seq 0 (List.length keys));
  argsort_desc_sorted : forall keys,
    StronglySorted (fun a b => volume_geb a b = true)
                   (take (argsort_desc keys) keys)
}.

(** What the arithmetic routines do on a column of one value that is one
    of their own results: the value comes back.  The sum of one int64 or
    float64 value is that value, the mean of one float64 value is that
    value, and a float64 value rounded to two decimals rounds to itself. *)
Class ArithmeticLaws (L : Pandas) : Prop := {
  series_sum_of_sum : forall l,
    series_sum [Some (series_sum l)] = series_sum l;
  series_mean_of_rounded : forall x,
    series_mean [Some (round_2 x)] = Some (round_2 x);
  series_mean_of_missing : series_mean [None] = None;
  round_2_of_rounded : forall x, round_2 (round_2 x) = round_2 x
}.

(** ** The output record *)

Record OutRow : Type := mkOut {
  out_Competitor_URL : string;
  Topic : option string;
  Keywords : string;
  out_Search_Volume : Q;
  out_Keyword_Difficulty : option Q;
  Domain_s_Info : string;
  Creation_or_Optimization : string
}.

(** A row of [filtered_df]: the three coerced columns hold numbers. *)
Definition FRow : Type := Row (option Q) (option Q).

Section Pipeline.
Context {L : Pandas}.

(** ** Ranking (lines 64-65) *)

(** [pd.to_numeric(column, errors='coerce')], cell by cell. *)
Definition to_numeric (c : Cell) : option Q :=
  match c with
  | NaN => None
  | Num q => Some q
  | Text s => str_to_num s
  end.

Definition coerce_volume {P : Type} (r : Row Cell P) : Row (option Q) P :=
  {| Keyword := Keyword r;
     Search_Volume := to_numeric (Search_Volume r);
     Keyword_Difficulty := Keyword_Difficulty r;
     Domain := Domain r;
     Domain_Position := Domain_Position r;
     Competitor_URL := Competitor_URL r;
     Competitor_Position := Competitor_Position r |}.

(** [df.sort_values(by='Search Volume', ascending=False)]. *)
Definition sort_by_volume {P : Type} (df : list (Row (option Q) P))
  : list (Row (option Q) P) :=
  take (argsort_desc (map (@Search_Volume _ _) df)) df.

Definition Ranker {P : Type} (dedup_df : list (Row Cell P))
  : list (Row (option Q) P) :=
  sort_by_volume (map coerce_volume dedup_df).

(** ** Filtering (lines 81-86) *)

Definition coerce_positions {V : Type} (r : Row V Cell) : Row V (option Q) :=
  {| Keyword := Keyword r;
     Search_Volume := Search_Volume r;
     Keyword_Difficulty := Keyword_Difficulty r;
     Domain := Domain r;
     Domain_Position := to_numeric (Domain_Position r);
     Competitor_URL := Competitor_URL r;
     Competitor_Position := to_numeric (Competitor_Position r) |}.

(** Line 85. *)
Definition condition {V : Type} (r : Row V (option Q)) : bool :=
  gt (Domain_Position r) (Competitor_Position r)
  && ne (Domain_Position r) (Some 0%Q).

Definition Filter {V : Type} (dedup_df : list (Row V Cell))
  : list (Row V (option Q)) :=
  filter (fun r => negb (condition r)) (map coerce_positions dedup_df).

(** ** The Aggregator (lines 95-147) *)

(** [filtered_df.groupby('Competitor URL')]: one group per key that is not
    missing, the keys in ascending order ([sort=True]), the rows of a group
    in the order of the frame. *)
Definition group_keys (filtered_df : list FRow) : list string :=
  stable_sort String.leb
    (drop_duplicates (fun u : string => u) String.eqb
       (flat_map (fun r : FRow => match Competitor_URL r with
                                  | Some u => [u]
                                  | None => []
                                  end) filtered_df)).

Definition group_of (filtered_df : list FRow) (competitor_url : string)
  : list FRow :=
  filter (fun r => text_equal (Competitor_URL r) (Some competitor_url))
         filtered_df.

Definition groupby (filtered_df : list FRow) : list (string * list FRow) :=
  map (fun u => (u, group_of filtered_df u)) (group_keys filtered_df).

(** [group['Search Volume'].idxmax()]: the first row with the largest
    volume that is not missing; no row (NaN) when all are missing. *)
Fixpoint idxmax_from (best : FRow) (best_volume : Q) (l : list FRow) : FRow :=
  match l with
  | [] => best
  | r :: l' =>
      match Search_Volume r with
      | Some v => if Qltb best_volume v then idxmax_from r v l'
                  else idxmax_from best best_volume l'
      | None => idxmax_from best best_volume l'
      end
  end.

Fixpoint idxmax (l : list FRow) : option FRow :=
  match l with
  | [] => None
  | r :: l' =>
      match Search_Volume r with
      | Some v => Some (idxmax_from r v l')
      | None => idxmax l'
      end
  end.

(** [group.loc[...]] on that label; on NaN it raises [KeyError: nan]. *)
Definition loc_idxmax (group : list FRow) : Result FRow :=
  match idxmax group with
  | Some r => Ok r
  | None => Raise (KeyError NaNKey)
  end.

(** [column in df.columns], or the [KeyError] of [df[column]]. *)
Definition require (cols : list string) (c : string) : Result unit :=
  if has_column cols c then Ok tt else Raise (KeyError (Label c)).

(** [Series.mean()] of line 126; the column is as [read_csv] left it. *)
Definition mean (l : list Cell) : Result (option Q) :=
  qs <- numbers l ;; Ok (series_mean qs).

(** [round(x, 2)] of line 139; [round] of NaN is NaN. *)
Definition round (x : option Q) : option Q := option_map round_2 x.

(** The texts of a list; an item that is not a text makes [join] raise. *)
Fixpoint texts (l : list (option string)) : Result (list string) :=
  match l with
  | [] => Ok []
  | Some s :: l' => ss <- texts l' ;; Ok (s :: ss)
  | None :: l' => Raise JoinTypeError
  end.

(** [sep.join(l)]. *)
Definition join (sep : string) (l : list (option string)) : Result string :=
  ss <- texts l ;; Ok (String.concat sep ss).

(** [str] of a cell inside an f-string. *)
Definition str_text (c : option string) : string :=
  match c with
  | Some s => s
  | None => "nan"
  end.

Definition str_num (c : option Q) : string :=
  match c with
  | Some q => num_to_str q
  | None => "nan"
  end.

(** The f-string of line 103. *)
Definition info_entry (x : FRow) : string :=
  (str_text (Keyword x) ++ " (" ++ str_text (Domain x) ++ " - "
   ++ str_num (Domain_Position x) ++ ")")%string.

(** The mask of lines 98-100. *)
Definition domain_ranks (row x : FRow) : bool :=
  text_equal (Keyword x) (Keyword row)
  && text_equal (Domain x) (Domain row)
  && gt (Domain_Position x) (Some 0%Q).

Definition get_domain_info (cols : list string) (row : FRow)
  (group_df : list FRow) : Result string :=
  _ <- require cols "Keyword" ;;
  _ <- require cols "Domain" ;;
  _ <- require cols "Domain Position" ;;
  let domain_ranked := filter (domain_ranks row) group_df in
  match domain_ranked with
  | _ :: _ => Ok (String.concat ", " (map info_entry domain_ranked))
  | [] => Ok ""
  end.

(** The body of the loop over the groups (lines 113-142). *)
Definition summarise (cols : list string) (filtered_df : list FRow)
  (g : string * list FRow) : Result OutRow :=
  let competitor_url := fst g in
  let group := snd g in
  _ <- require cols "Search Volume" ;;
  top_keyword_row <- loc_idxmax group ;;
  _ <- require cols "Keyword" ;;
  let topic := Keyword top_keyword_row in
  let top_keywords := map (@Keyword _ _) (sort_by_volume group) in
  keywords <- join ", " top_keywords ;;
  let total_search_volume := series_sum (map (@Search_Volume _ _) group) in
  _ <- require cols "Keyword Difficulty" ;;
  avg_keyword_difficulty <- mean (map (@Keyword_Difficulty _ _) group) ;;
  domain_info <- get_domain_info cols top_keyword_row filtered_df ;;
  let creation_optimization :=
    match domain_info with
    | EmptyString => "Creation"
    | String _ _ => "Optimization"
    end in
  Ok {| out_Competitor_URL := competitor_url;
        Topic := topic;
        Keywords := keywords;
        out_Search_Volume := total_search_volume;
        out_Keyword_Difficulty := round avg_keyword_difficulty;
        Domain_s_Info := domain_info;
        Creation_or_Optimization := creation_optimization |}.

Definition final_rows (cols : list string) (filtered_df : list FRow)
  : Result (list OutRow) :=
  _ <- require cols "Competitor URL" ;;
  mapM (summarise cols filtered_df) (groupby filtered_df).

(** Lines 144-147. *)
Definition Aggregator (cols : list string) (filtered_df : list FRow)
  : Result (list OutRow) :=
  rows_ <- final_rows cols filtered_df ;;
  Ok (drop_duplicates out_Competitor_URL String.eqb rows_).

(** ** The whole of [main] *)

(** An uploaded file: its name and what [pd.read_csv] makes of it, a frame
    or the text of the exception. *)
Record Upload : Type := mkUpload {
  name : string;
  read_csv : string + DataFrame
}.

Inductive Outcome : Type :=
| NoFiles                      (* nothing uploaded: the form only *)
| Halted (message : string)    (* [st.error(message)] and [return] *)
| Uncaught (e : Exn)           (* an exception leaves [main] *)
| Final (final_df : list OutRow).

(** The loop of lines 21-30. *)
Fixpoint read_all (uploaded_files : list Upload) : string + list DataFrame :=
  match uploaded_files with
  | [] => inr []
  | f :: fs =>
      match read_csv f with
      | inl e => inl ("Error uploading `" ++ name f ++ "`: " ++ e)%string
      | inr df =>
          match read_all fs with
          | inl m => inl m
          | inr csv_list => inr (df :: csv_list)
          end
      end
  end.

(** The table [filtered_df] that [main] builds from the merged frame, when
    both column checks pass. *)
Definition filtered_table (merged_df : DataFrame) : list FRow :=
  Filter (Ranker (Deduplicator (records merged_df))).

Definition main (uploaded_files : list Upload) : Outcome :=
  match uploaded_files with
  | [] => NoFiles
  | _ :: _ =>
      match read_all uploaded_files with
      | inl message => Halted message
      | inr csv_list =>
          let merged_df := concat csv_list in
          match missing_columns merged_df with
          | _ :: _ =>
              Halted (missing_columns_message (missing_columns merged_df))
          | [] =>
              let dedup_df := Deduplicator (records merged_df) in
              let dedup_df := Ranker dedup_df in
              if negb (has_column (columns merged_df) "Competitor Position")
              then Halted missing_position_message
              else
                let filtered_df := Filter dedup_df in
                match Aggregator (columns merged_df) filtered_df with
                | Ok final_df => Final final_df
                | Raise e => Uncaught e
                end
          end
      end
  end.

End Pipeline.

(** ** Notions the properties are stated with *)

Definition row_count (df : DataFrame) : nat := List.length (rows df).

(** Equality of two text cells is decidable. *)
Definition text_eq_dec (a b : option string) : {a = b} + {a <> b}.
Proof. decide equality. apply string_dec. Defined.

(** Ascending order of a text column as the specification has it: texts in
    the lexicographic order of their code points, a missing value after
    every text. *)
Inductive text_lt : option string -> option string -> Prop :=
| text_lt_text (x y : string) : String_as_OT.lt x y -> text_lt (Some x) (Some y)
| text_lt_missing (x : string) : text_lt (Some x) None.

(** "Domain ascending, then Keyword ascending": [a] is not after [b]. *)
Definition key_le {V P : Type} (a b : Row V P) : Prop :=
  text_lt (Domain a) (Domain b)
  \/ (Domain a = Domain b
      /\ (text_lt (Keyword a) (Keyword b) \/ Keyword a = Keyword b)).

(** Two rows with the same sort key [(Domain, Keyword)]. *)
Definition same_key {V P : Type} (a b : Row V P) : bool :=
  if text_eq_dec (Domain a) (Domain b)
  then if text_eq_dec (Keyword a) (Keyword b) then true else false
  else false.

(** A frame of the data model: in its rows the cells of the three text
    columns are texts or missing values. *)
Definition text_cell (c : option Cell) : Prop :=
  match c with
  | Some (Num _) => False
  | _ => True
  end.

Definition text_columns (df : DataFrame) : Prop :=
  forall cells c, In cells (rows df) ->
    In c ["Keyword"; "Domain"; "Competitor URL"] ->
    text_cell (cell_at (columns df) cells c).


(** The rule as the specification words it: a comparison with a missing
    operand is false. *)
Definition compare_or_false (test : Q -> Q -> bool) (a b : option Q) : bool :=
  match a, b with
  | Some x, Some y => test x y
  | _, _ => false
  end.

Definition excluded_by_rule {V : Type} (r : Row V (option Q)) : bool :=
  compare_or_false (fun dp cp => Qltb cp dp)
                   (Domain_Position r) (Competitor_Position r)
  && compare_or_false (fun dp z => negb (Qeq_bool dp z))
                      (Domain_Position r) (Some 0%Q).

(** The Competitor URL values of a table that are not missing. *)
Definition competitor_urls (filtered_df : list FRow) : list string :=
  flat_map (fun r : FRow => match Competitor_URL r with
                            | Some u => [u]
                            | None => []
                            end) filtered_df.

(** An output row read as a row of a filtered table: the row holds the
    output row's cells in the three columns the two tables share. *)
Definition reads_as (r : FRow) (o : OutRow) : Prop :=
  Competitor_URL r = Some (out_Competitor_URL o)
  /\ Search_Volume r = Some (out_Search_Volume o)
  /\ Keyword_Difficulty r = match out_Keyword_Difficulty o with
                            | Some q => Num q
                            | None => NaN
                            end.

(** The top row of a group: it ranks when its Domain is a text and its
    Domain Position is above 0. *)
Definition top_row_ranks (top : FRow) : Prop :=
  exists d p, Domain top = Some d /\ Domain_Position top = Some p /\ (0 < p)%Q.

(** The condition on the rows under which the Aggregator returns a table:
    among the rows with a Competitor URL, every Keyword is a text, no
    Keyword Difficulty is a text and every group has a Search Volume. *)
Definition aggregable (filtered_df : list FRow) : Prop :=
  forall r u, In r filtered_df -> Competitor_URL r = Some u ->
    Keyword r <> None
    /\ (forall s, Keyword_Difficulty r <> Text s)
    /\ exists r', In r' filtered_df /\ Competitor_URL r' = Some u
                  /\ Search_Volume r' <> None.

(** The columns the Aggregator reads. *)
Definition aggregator_columns : list string :=
  ["Competitor URL"; "Search Volume"; "Keyword"; "Keyword Difficulty";
   "Domain"; "Domain Position"].

(** ** A reference instance of the library interface

    The theorems hold for every instance of [Pandas].  The runs on concrete
    tables use this one: plain decimal literals are parsed, a number is
    rendered by its decimal expansion (as float64 prints a short decimal),
    the indexer is the stable one, and the arithmetic is exact (as int64
    and float64 arithmetic is on the small numbers of the tables below). *)

Definition digit_of (c : ascii) : option Z :=
  let n := N_of_ascii c in
  if (48 <=? n)%N && (n <=? 57)%N then Some (Z.of_N (n - 48)) else None.

Fixpoint scan_decimal (s : string) (mantissa : Z) (scale : option positive)
  (seen : bool) : option Q :=
  match s with
  | EmptyString =>
      if seen then Some (mantissa # match scale with
                                    | Some p => p
                                    | None => 1
                                    end)%Q
      else None
  | String c s' =>
      if Ascii.eqb c "."%char then
        match scale with
        | None => scan_decimal s' mantissa (Some 1%positive) seen
        | Some _ => None
        end
      else
        match digit_of c with
        | Some d => scan_decimal s' (10 * mantissa + d)%Z
                                 (option_map (Pos.mul 10) scale) true
        | None => None
        end
  end.

Definition parse_decimal (s : string) : option Q :=
  match s with
  | String "-"%char s' => option_map Qopp (scan_decimal s' 0 None false)
  | _ => scan_decimal s 0 None false
  end.

Fixpoint fraction_digits (fuel : nat) (rem den : Z) : string :=
  match fuel with
  | O => ""
  | S fuel' =>
      if (rem =? 0)%Z then ""
      else (NilZero.string_of_uint (N.to_uint (Z.to_N (rem * 10 / den)))
            ++ fraction_digits fuel' ((rem * 10) mod den)%Z den)%string
  end.

Definition render_decimal (q : Q) : string :=
  let d := Zpos (Qden q) in
  let a := Z.abs (Qnum q) in
  ((if (Qnum q <? 0)%Z then "-" else "")
   ++ NilZero.string_of_uint (N.to_uint (Z.to_N (a / d))) ++ "."
   ++ (if (a mod d =? 0)%Z then "0" else fraction_digits 17 (a mod d) d))%string.

(** A reference indexer: the stable descending sort of the positions. *)
Definition stable_argsort_desc (keys : list (option Q)) : list nat :=
  map fst (stable_sort (fun a b : nat * option Q => volume_geb (snd a) (snd b))
                       (combine (seq 0 (List.length keys)) keys)).

(** Exact arithmetic. *)
Definition present (l : list (option Q)) : list Q :=
  flat_map (fun v => match v with
                     | Some q => [q]
                     | None => []
                     end) l.

Definition total (qs : list Q) : Q := fold_right Qplus 0%Q qs.

Definition exact_sum (l : list (option Q)) : Q := total (present l).

Definition exact_mean (l : list (option Q)) : option Q :=
  match present l with
  | [] => None
  | q :: qs =>
      Some (total (q :: qs) / inject_Z (Z.of_nat (List.length (q :: qs))))%Q
  end.

(** Rounding to the nearest integer, halves to the even one. *)
Definition rint (x : Q) : Z :=
  let f := Qfloor x in
  match Qcompare (x - inject_Z f)%Q (1 # 2)%Q with
  | Lt => f
  | Gt => (f + 1)%Z
  | Eq => if Z.even f then f else (f + 1)%Z
  end.

Definition round_half_even (x : Q) : Q := (inject_Z (rint (x * 100)) / 100)%Q.

#[local] Instance reference_pandas : Pandas := {|
  str_to_num := parse_decimal;
  num_to_str := render_decimal;
  argsort_desc := stable_argsort_desc;
  series_sum := exact_sum;
  series_mean := exact_mean;
  round_2 := round_half_even
|}.

(** ** Concrete tables *)

Definition input_columns : list string :=
  ["Keyword"; "Search Volume"; "Keyword Difficulty"; "Domain";
   "Domain Position"; "Competitor URL"; "Competitor Position"].

(** An export with a duplicate keyword ("kw500", kept for the smaller Domain
    "a.com"), a row the filter removes ("gone": 9 > 4) and a row without a
    Domain ("other"). *)
Definition export_1 : DataFrame := mkFrame input_columns
  [ [Text "kw300"; Num (300 # 1); Num (41 # 1); Text "a.com"; Num (0 # 1);
     Text "x.com/page"; Num (5 # 1)];
    [Text "kw500"; Num (900 # 1); Num (40 # 1); Text "z.com"; Num (1 # 1);
     Text "x.com/page"; Num (5 # 1)];
    [Text "other"; Num (10 # 1); NaN; NaN; Num (3 # 1);
     Text "b.com/z"; NaN];
    [Text "kw500"; Num (500 # 1); Num (40 # 1); Text "a.com"; Num (5 # 2);
     Text "x.com/page"; Num (5 # 1)];
    [Text "gone"; Num (50 # 1); Num (30 # 1); Text "a.com"; Num (9 # 1);
     Text "x.com/page"; Num (4 # 1)] ].

(** An export with other columns; its only Search Volume is not a number. *)
Definition export_2 : DataFrame :=
  mkFrame ["Keyword"; "Competitor URL"; "Search Volume"; "Extra"]
    [ [Text "solo"; Text "y.com"; Text "n/a"; Text "e"] ].

Definition sample_filtered : list FRow :=
  [ mkRow (Some "kw500") (Some (500 # 1)%Q) (Num (40 # 1)) (Some "a.com")
          (Some (5 # 2)%Q) (Some "x.com/page") (Some (5 # 1)%Q);
    mkRow (Some "kw300") (Some (300 # 1)%Q) (Num (41 # 1)) (Some "a.com")
          (Some (0 # 1)%Q) (Some "x.com/page") (Some (5 # 1)%Q);
    mkRow (Some "other") (Some (10 # 1)%Q) NaN None
          (Some (3 # 1)%Q) (Some "b.com/z") None ].

Definition sample_final : list OutRow :=
  [ mkOut "b.com/z" (Some "other") "other" (10 # 1)%Q None "" "Creation";
    mkOut "x.com/page" (Some "kw500") "kw500, kw300" (800 # 1)%Q
          (Some (4050 # 100)%Q) "kw500 (a.com - 2.5)" "Optimization" ].

Definition sample_row : OutRow :=
  mkOut "x.com/page" (Some "kw500") "kw500, kw300" (800 # 1)%Q
        (Some (4050 # 100)%Q) "kw500 (a.com - 2.5)" "Optimization".

Definition two_uploads : list Upload :=
  [mkUpload "a.csv" (inr export_1); mkUpload "b.csv" (inr export_2)].

(** An export of one row whose Domain cell is empty and whose Domain
    Position is 3. *)
Definition export_without_domain : DataFrame := mkFrame input_columns
  [ [Text "seo audit"; Num (70 # 1); Num (35 # 1); NaN; Num (3 # 1);
     Text "y.com/blog"; Num (5 # 1)] ].

Definition seo_audit_row : FRow :=
  mkRow (Some "seo audit") (Some (70 # 1)%Q) (Num (35 # 1)) None
        (Some (3 # 1)%Q) (Some "y.com/blog") (Some (5 # 1)%Q).

Definition seo_audit_final : list OutRow :=
  [ mkOut "y.com/blog" (Some "seo audit") "seo audit" (70 # 1)%Q
          (Some (3500 # 100)%Q) "" "Creation" ].

(** The rows of [sample_final] read as rows of a filtered table. *)
Definition sample_final_as_rows : list FRow :=
  [ mkRow None (Some (10 # 1)%Q) NaN None None (Some "b.com/z") None;
    mkRow None (Some (800 # 1)%Q) (Num (4050 # 100)) None None
          (Some "x.com/page") None ].

(** The two rows of [export_1] with the Keyword "kw500". *)
Definition kw500_of_a : Row Cell Cell :=
  mkRow (Some "kw500") (Num (500 # 1)) (Num (40 # 1)) (Some "a.com")
        (Num (5 # 2)) (Some "x.com/page") (Num (5 # 1)).

Definition kw500_of_z : Row Cell Cell :=
  mkRow (Some "kw500") (Num (900 # 1)) (Num (40 # 1)) (Some "z.com")
        (Num (1 # 1)) (Some "x.com/page") (Num (5 # 1)).

(** A filtered row without a Competitor URL. *)
Definition row_without_url : FRow :=
  mkRow (Some "lost") (Some (5 # 1)%Q) NaN None None None None.

Definition export_without_position : DataFrame :=
  mkFrame ["Keyword"; "Search Volume"; "Keyword Difficulty"; "Domain";
           "Domain Position"; "Competitor URL"]
    [ [Text "seo audit"; Num (70 # 1); Num (35 # 1); Text "a.com";
       Num (3 # 1); Text "y.com/blog"] ].

(** * Part II: lemmas *)

Unset Implicit Arguments.

(** ** The stable sort *)

Section StableSortFacts.
Context {A : Type} (leb : A -> A -> bool).

Lemma insert_sorted_perm (x : A) (l : list A) :
  Permutation (insert_sorted leb x l) (x :: l).
Proof.
  induction l as [|y l IH]; simpl.
  - apply Permutation_refl.
  - destruct (leb x y).
    + apply Permutation_refl.
    + apply perm_trans with (y :: x :: l).
      * now apply perm_skip.
      * apply perm_swap.
Qed.

Lemma stable_sort_perm (l : list A) : Permutation (stable_sort leb l) l.
Proof.
  induction l as [|x l IH]; simpl.
  - apply perm_nil.
  - apply perm_trans with (x :: stable_sort leb l).
    + apply insert_sorted_perm.
    + now apply perm_skip.
Qed.

(** Stability: the rows of one key class keep their relative order.  A key
    class is a set [f] of rows any two of which are in the order. *)
Lemma insert_sorted_filter (f : A -> bool) (x : A) (l : list A) :
  (forall a b, f a = true -> f b = true -> leb a b = true) ->
  filter f (insert_sorted leb x l) = filter f (x :: l).
Proof.
  intros Hf. induction l as [|y l IH]; simpl.
  - reflexivity.
  - destruct (leb x y) eqn:Hxy.
    + reflexivity.
    + simpl in IH. simpl. rewrite IH.
      destruct (f x) eqn:Hx, (f y) eqn:Hy; try reflexivity.
      rewrite (Hf x y Hx Hy) in Hxy. discriminate.
Qed.

Lemma stable_sort_filter (f : A -> bool) (l : list A) :
  (forall a b, f a = true -> f b = true -> leb a b = true) ->
  filter f (stable_sort leb l) = filter f l.
Proof.
  intros Hf. induction l as [|x l IH]; simpl.
  - reflexivity.
  - rewrite insert_sorted_filter by exact Hf. simpl. now rewrite IH.
Qed.

Hypothesis leb_total : forall a b, leb a b = true \/ leb b a = true.
Hypothesis leb_trans :
  forall a b c, leb a b = true -> leb b c = true -> leb a c = true.

Lemma insert_sorted_sorted (x : A) (l : list A) :
  StronglySorted (fun a b => leb a b = true) l ->
  StronglySorted (fun a b => leb a b = true) (insert_sorted leb x l).
Proof.
  induction 1 as [|y l Hs IH Hy]; simpl.
  - constructor; constructor.
  - destruct (leb x y) eqn:Hxy.
    + constructor.
      * now constructor.
      * constructor; [exact Hxy|].
        rewrite Forall_forall in *. intros z Hz.
        apply leb_trans with y; auto.
    + constructor; [exact IH|].
      rewrite Forall_forall in *. intros z Hz.
      apply (Permutation_in _ (insert_sorted_perm x l)) in Hz.
      destruct Hz as [<-|Hz]; [|now apply Hy].
      destruct (leb_total x y) as [H|H]; [congruence|exact H].
Qed.

Lemma stable_sort_sorted (l : list A) :
  StronglySorted (fun a b => leb a b = true) (stable_sort leb l).
Proof.
  induction l as [|x l IH]; simpl.
  - constructor.
  - now apply insert_sorted_sorted.
Qed.

End StableSortFacts.

(** ** Dropping duplicates *)

Section DropDuplicatesFacts.
Context {A K : Type} (key : A -> K) (eqb : K -> K -> bool).
Hypothesis eqb_spec : forall a b, eqb a b = true <-> a = b.

Lemma seen_spec (k : K) (seen : list K) :
  existsb (eqb k) seen = true <-> In k seen.
Proof.
  rewrite existsb_exists. split.
  - intros [y [Hy He]]. apply eqb_spec in He. now subst.
  - intros H. exists k. split; [exact H|]. now apply eqb_spec.
Qed.

Lemma seen_false (k : K) (seen : list K) :
  existsb (eqb k) seen = false <-> ~ In k seen.
Proof.
  rewrite <- seen_spec. destruct (existsb (eqb k) seen); split; intros; congruence.
Qed.

Lemma drop_seen_In (seen : list K) (l : list A) (x : A) :
  In x (drop_seen key eqb seen l) -> In x l /\ ~ In (key x) seen.
Proof.
  revert seen. induction l as [|y l IH]; simpl; intros seen H.
  - contradiction.
  - destruct (existsb (eqb (key y)) seen) eqn:E.
    + apply IH in H. tauto.
    + destruct H as [<-|H].
      * split; [now left|]. now apply seen_false.
      * apply IH in H. destruct H as [H1 H2]. split; [now right|].
        intros Hin. apply H2. now right.
Qed.

Lemma drop_seen_NoDup (seen : list K) (l : list A) :
  NoDup (map key (drop_seen key eqb seen l)).
Proof.
  revert seen. induction l as [|y l IH]; simpl; intros seen.
  - constructor.
  - destruct (existsb (eqb (key y)) seen) eqn:E.
    + apply IH.
    + simpl. constructor; [|apply IH].
      rewrite in_map_iff. intros [z [Hk Hz]].
      apply drop_seen_In in Hz. apply (proj2 Hz). rewrite Hk. now left.
Qed.

Lemma drop_seen_complete (seen : list K) (l : list A) (x : A) :
  In x l -> ~ In (key x) seen ->
  exists y, In y (drop_seen key eqb seen l) /\ key y = key x.
Proof.
  revert seen. induction l as [|y l IH]; simpl; intros seen Hx Hs.
  - contradiction.
  - destruct (existsb (eqb (key y)) seen) eqn:E.
    + destruct Hx as [->|Hx].
      * apply seen_spec in E. contradiction.
      * now apply IH.
    + destruct Hx as [->|Hx].
      * exists x. split; [now left|reflexivity].
      * destruct (eqb (key y) (key x)) eqn:Eyx.
        -- apply eqb_spec in Eyx. exists y. split; [now left|exact Eyx].
        -- destruct (IH (key y :: seen) Hx) as [z [Hz Hk]].
           ++ intros [H|H]; [|contradiction].
              apply eqb_spec in H. congruence.
           ++ exists z. split; [now right|exact Hk].
Qed.

(** A kept row is the first row of the scanned list with its key. *)
Lemma drop_seen_first (seen : list K) (l : list A) (x : A) :
  In x (drop_seen key eqb seen l) ->
  exists l1 l2, l = l1 ++ x :: l2 /\ forall y, In y l1 -> key y <> key x.
Proof.
  revert seen. induction l as [|y l IH]; simpl; intros seen H.
  - contradiction.
  - destruct (existsb (eqb (key y)) seen) eqn:E.
    + pose proof (drop_seen_In _ _ _ H) as [_ Hns].
      destruct (IH _ H) as [l1 [l2 [-> Hl1]]].
      exists (y :: l1), l2. split; [reflexivity|].
      intros z [<-|Hz]; [|now apply Hl1].
      apply seen_spec in E. congruence.
    + destruct H as [<-|H].
      * exists [], l. split; [reflexivity|]. intros z [].
      * pose proof (drop_seen_In _ _ _ H) as [_ Hns].
        destruct (IH _ H) as [l1 [l2 [-> Hl1]]].
        exists (y :: l1), l2. split; [reflexivity|].
        intros z [<-|Hz]; [|now apply Hl1].
        intros Heq. apply Hns. left. exact Heq.
Qed.

Lemma drop_seen_sorted (R : A -> A -> Prop) (seen : list K) (l : list A) :
  StronglySorted R l -> StronglySorted R (drop_seen key eqb seen l).
Proof.
  intros H. revert seen. induction H as [|y l Hs IH Hy]; simpl; intros seen.
  - constructor.
  - destruct (existsb (eqb (key y)) seen).
    + apply IH.
    + constructor; [apply IH|].
      rewrite Forall_forall in *. intros z Hz.
      apply drop_seen_In in Hz. now apply Hy.
Qed.

(** Nothing is dropped from a list whose keys are distinct and new. *)
Lemma drop_seen_id (seen : list K) (l : list A) :
  NoDup (map key l) ->
  (forall x, In x l -> ~ In (key x) seen) ->
  drop_seen key eqb seen l = l.
Proof.
  revert seen. induction l as [|y l IH]; simpl; intros seen Hnd Hs.
  - reflexivity.
  - inversion Hnd as [|k ks Hk Hnd']; subst.
    destruct (existsb (eqb (key y)) seen) eqn:E.
    + apply seen_spec in E. exfalso. apply (Hs y); [now left|exact E].
    + f_equal. apply IH; [exact Hnd'|].
      intros x Hx [H|H].
      * apply Hk. rewrite H. now apply in_map.
      * apply (Hs x); [now right|exact H].
Qed.

Lemma drop_duplicates_id (l : list A) :
  NoDup (map key l) -> drop_duplicates key eqb l = l.
Proof.
  intros H. unfold drop_duplicates. apply drop_seen_id; [exact H|].
  intros x _ [].
Qed.

End DropDuplicatesFacts.

(** ** The order of text keys *)

Lemma text_compare_antisym (a b : option string) :
  text_compare a b = CompOpp (text_compare b a).
Proof.
  destruct a, b; simpl; try reflexivity. apply String.compare_antisym.
Qed.

Lemma text_compare_eq (a b : option string) :
  text_compare a b = Eq <-> a = b.
Proof.
  destruct a as [x|], b as [y|]; simpl; split; intros H;
    try discriminate; try reflexivity.
  - apply String_as_OT.cmp_eq in H. now subst.
  - injection H as ->. now apply String_as_OT.cmp_eq.
Qed.

Lemma text_compare_refl (a : option string) : text_compare a a = Eq.
Proof. now apply text_compare_eq. Qed.

Lemma text_compare_lt_trans (a b c : option string) :
  text_compare a b = Lt -> text_compare b c = Lt -> text_compare a c = Lt.
Proof.
  destruct a as [x|], b as [y|], c as [z|]; simpl; intros H1 H2;
    try discriminate; try reflexivity.
  apply String_as_OT.cmp_lt in H1, H2. apply String_as_OT.cmp_lt.
  now apply String_as_OT.lt_trans with y.
Qed.

Lemma text_eqb_spec (a b : option string) : text_eqb a b = true <-> a = b.
Proof.
  destruct a as [x|], b as [y|]; simpl; split; intros H;
    try discriminate; try reflexivity.
  - apply String.eqb_eq in H. now subst.
  - injection H as ->. apply String.eqb_refl.
Qed.

Lemma text_equal_spec (a b : option string) :
  text_equal a b = true <-> exists s, a = Some s /\ b = Some s.
Proof.
  split.
  - destruct a as [x|], b as [y|]; simpl; intros H; try discriminate.
    apply String.eqb_eq in H. subst. now exists y.
  - intros [s [-> ->]]. simpl. apply String.eqb_refl.
Qed.

Lemma string_leb_total (a b : string) :
  String.leb a b = true \/ String.leb b a = true.
Proof. apply String.leb_total. Qed.

Lemma string_leb_trans (a b c : string) :
  String.leb a b = true -> String.leb b c = true -> String.leb a c = true.
Proof.
  unfold String.leb. intros H1 H2.
  destruct (String.compare a b) eqn:E1; try discriminate;
    destruct (String.compare b c) eqn:E2; try discriminate.
  - apply String_as_OT.cmp_eq in E1. subst. now rewrite E2.
  - apply String_as_OT.cmp_eq in E1. subst. now rewrite E2.
  - apply String_as_OT.cmp_eq in E2. subst. now rewrite E1.
  - assert (H : String.compare a c = Lt).
    { apply String_as_OT.cmp_lt. apply String_as_OT.lt_trans with b;
        now apply String_as_OT.cmp_lt. }
    now rewrite H.
Qed.

(** The comparison of the code is the order of the specification. *)
Lemma text_compare_lt (a b : option string) :
  text_compare a b = Lt <-> text_lt a b.
Proof.
  destruct a as [x|], b as [y|]; simpl; split; intros H;
    try discriminate; try reflexivity; try (now inversion H).
  - constructor. now apply String_as_OT.cmp_lt.
  - inversion H; subst. now apply String_as_OT.cmp_lt.
  - constructor.
Qed.

Lemma StronglySorted_impl {A : Type} (R R' : A -> A -> Prop) (l : list A) :
  (forall a b, R a b -> R' a b) -> StronglySorted R l -> StronglySorted R' l.
Proof.
  intros HR. induction 1 as [|x l _ IH Hx]; constructor; [exact IH|].
  rewrite Forall_forall in *. intros y Hy. apply HR. now apply Hx.
Qed.

(** ** The Deduplicator *)

Section DeduplicatorFacts.
Context {V P : Type}.
Implicit Types a b c r : Row V P.

Lemma key_leb_spec a b : key_leb a b = true <-> key_le a b.
Proof.
  unfold key_leb, key_le.
  destruct (text_compare (Domain a) (Domain b)) eqn:D.
  - apply text_compare_eq in D.
    destruct (text_compare (Keyword a) (Keyword b)) eqn:K.
    + apply text_compare_eq in K. split; [intros _|reflexivity].
      right. split; [exact D|]. now right.
    + apply text_compare_lt in K. split; [intros _|reflexivity].
      right. split; [exact D|]. now left.
    + split; [discriminate|]. intros [H|[_ [H|H]]].
      * apply text_compare_lt in H. rewrite D, text_compare_refl in H.
        discriminate.
      * apply text_compare_lt in H. congruence.
      * apply text_compare_eq in H. congruence.
  - apply text_compare_lt in D. split; [intros _; now left|reflexivity].
  - split; [discriminate|]. intros [H|[H _]].
    + apply text_compare_lt in H. congruence.
    + apply text_compare_eq in H. congruence.
Qed.


Lemma same_key_spec a b :
  same_key a b = true <-> Domain a = Domain b /\ Keyword a = Keyword b.
Proof.
  unfold same_key.
  destruct (text_eq_dec (Domain a) (Domain b)) as [D|D];
    [destruct (text_eq_dec (Keyword a) (Keyword b)) as [K|K]|];
    split; try tauto; try discriminate.
Qed.

Lemma key_leb_total a b : key_leb a b = true \/ key_leb b a = true.
Proof.
  unfold key_leb.
  rewrite (text_compare_antisym (Domain b) (Domain a)).
  rewrite (text_compare_antisym (Keyword b) (Keyword a)).
  destruct (text_compare (Domain a) (Domain b)); simpl; auto.
  destruct (text_compare (Keyword a) (Keyword b)); simpl; auto.
Qed.

Lemma key_le_total a b : key_le a b \/ key_le b a.
Proof.
  destruct (key_leb_total a b) as [H|H]; [left|right]; now apply key_leb_spec.
Qed.

Lemma key_leb_trans a b c :
  key_leb a b = true -> key_leb b c = true -> key_leb a c = true.
Proof.
  unfold key_leb. intros H1 H2.
  destruct (text_compare (Domain a) (Domain b)) eqn:D1; try discriminate;
    destruct (text_compare (Domain b) (Domain c)) eqn:D2; try discriminate.
  - apply text_compare_eq in D1, D2. rewrite D1, D2, text_compare_refl.
    destruct (text_compare (Keyword a) (Keyword b)) eqn:K1; try discriminate;
      destruct (text_compare (Keyword b) (Keyword c)) eqn:K2; try discriminate.
    + apply text_compare_eq in K1, K2. now rewrite K1, K2, text_compare_refl.
    + apply text_compare_eq in K1. now rewrite K1, K2.
    + apply text_compare_eq in K2. now rewrite <- K2, K1.
    + now rewrite (text_compare_lt_trans _ _ _ K1 K2).
  - apply text_compare_eq in D1. now rewrite D1, D2.
  - apply text_compare_eq in D2. now rewrite <- D2, D1.
  - now rewrite (text_compare_lt_trans _ _ _ D1 D2).
Qed.

Lemma same_key_leb r a b :
  same_key r a = true -> same_key r b = true -> key_leb a b = true.
Proof.
  rewrite !same_key_spec. intros [D1 K1] [D2 K2]. unfold key_leb.
  rewrite <- D1, <- D2, <- K1, <- K2. now rewrite !text_compare_refl.
Qed.

End DeduplicatorFacts.

Lemma StronglySorted_after {A : Type} (R : A -> A -> Prop)
  (l1 l2 : list A) (x : A) :
  StronglySorted R (l1 ++ x :: l2) -> Forall (R x) l2.
Proof.
  induction l1 as [|y l1 IH]; simpl; intros H.
  - now inversion H.
  - inversion H. now apply IH.
Qed.

Lemma filter_head_split {A : Type} (f : A -> bool) (l : list A) (x : A)
  (rest : list A) :
  filter f l = x :: rest ->
  exists l1 l2, l = l1 ++ x :: l2 /\ forall y, In y l1 -> f y = false.
Proof.
  induction l as [|y l IH]; simpl; intros H.
  - discriminate.
  - destruct (f y) eqn:E.
    + injection H as -> _. exists [], l. split; [reflexivity|]. intros z [].
    + destruct (IH H) as [l1 [l2 [-> Hl1]]].
      exists (y :: l1), l2. split; [reflexivity|].
      intros z [<-|Hz]; auto.
Qed.

Lemma filter_none {A : Type} (f : A -> bool) (l : list A) :
  (forall y, In y l -> f y = false) -> filter f l = [].
Proof.
  induction l as [|y l IH]; simpl; intros H.
  - reflexivity.
  - rewrite (H y (or_introl eq_refl)). apply IH. intros z Hz. apply H. now right.
Qed.

(** ** The Merger *)

Lemma string_eqb_spec (a b : string) : String.eqb a b = true <-> a = b.
Proof. apply String.eqb_eq. Qed.

Lemma has_column_spec (cols : list string) (c : string) :
  has_column cols c = true <-> In c cols.
Proof.
  unfold has_column. apply (seen_spec String.eqb string_eqb_spec).
Qed.

Lemma drop_duplicates_In {A : Type} (eqb : A -> A -> bool)
  (eqb_spec : forall a b, eqb a b = true <-> a = b) (l : list A) (x : A) :
  In x (drop_duplicates (fun a => a) eqb l) <-> In x l.
Proof.
  unfold drop_duplicates. split.
  - intros H. now apply (drop_seen_In (fun a => a) eqb eqb_spec) in H.
  - intros H.
    destruct (drop_seen_complete (fun a => a) eqb eqb_spec [] l x H)
      as [y [Hy <-]]; [intros []|exact Hy].
Qed.

Lemma drop_duplicates_NoDup {A : Type} (eqb : A -> A -> bool)
  (eqb_spec : forall a b, eqb a b = true <-> a = b) (l : list A) :
  NoDup (drop_duplicates (fun a => a) eqb l).
Proof.
  rewrite <- (map_id (drop_duplicates _ eqb l)).
  apply (drop_seen_NoDup (fun a => a) eqb eqb_spec).
Qed.

Lemma cell_at_absent (cols : list string) (cells : list Cell) (c : string) :
  ~ In c cols -> cell_at cols cells c = None.
Proof.
  revert cells. induction cols as [|k cols IH]; intros cells H; simpl.
  - reflexivity.
  - destruct cells as [|v cells]; [reflexivity|].
    destruct (String.eqb k c) eqn:E.
    + apply String.eqb_eq in E. subst. exfalso. apply H. now left.
    + apply IH. intros Hin. apply H. now right.
Qed.

Lemma cell_at_map (cols : list string) (g : string -> Cell) (c : string) :
  In c cols -> cell_at cols (map g cols) c = Some (g c).
Proof.
  induction cols as [|k cols IH]; simpl; intros H.
  - contradiction.
  - destruct (String.eqb k c) eqn:E.
    + apply String.eqb_eq in E. now subst.
    + destruct H as [->|H]; [|now apply IH].
      rewrite String.eqb_refl in E. discriminate.
Qed.

Lemma concat_rows_app (cols : list string) (l1 l2 : list DataFrame) :
  flat_map (fun df => map (reindex cols df) (rows df)) (l1 ++ l2)
  = flat_map (fun df => map (reindex cols df) (rows df)) l1
    ++ flat_map (fun df => map (reindex cols df) (rows df)) l2.
Proof. apply flat_map_app. Qed.

Lemma concat_rows_length (cols : list string) (l : list DataFrame) :
  List.length (flat_map (fun df => map (reindex cols df) (rows df)) l)
  = list_sum (map row_count l).
Proof.
  induction l as [|df l IH]; simpl.
  - reflexivity.
  - rewrite length_app, length_map, IH. reflexivity.
Qed.

(** ** The Filter *)

Lemma Qltb_spec (x y : Q) : Qltb x y = true <-> (x < y)%Q.
Proof.
  unfold Qltb. rewrite negb_true_iff. split.
  - intros H. apply Qnot_le_lt. intros Hle.
    apply Qle_bool_iff in Hle. congruence.
  - intros H. destruct (Qle_bool y x) eqn:E; [|reflexivity].
    apply Qle_bool_iff in E. exfalso. now apply (Qlt_not_le x y).
Qed.

Lemma Qltb_false (x y : Q) : Qltb x y = false <-> (y <= x)%Q.
Proof.
  unfold Qltb. rewrite negb_false_iff. apply Qle_bool_iff.
Qed.

Lemma condition_excluded_by_rule {V : Type} (r : Row V (option Q)) :
  condition r = excluded_by_rule r.
Proof.
  unfold condition, excluded_by_rule, gt, ne, compare_or_false.
  destruct (Domain_Position r), (Competitor_Position r); reflexivity.
Qed.

Lemma condition_spec {V : Type} (r : Row V (option Q)) :
  condition r = true <->
  exists dp cp, Domain_Position r = Some dp /\ Competitor_Position r = Some cp
                /\ (cp < dp)%Q /\ ~ (dp == 0)%Q.
Proof.
  unfold condition, gt, ne.
  split.
  - destruct (Domain_Position r) as [dp|], (Competitor_Position r) as [cp|];
      simpl; intros H; try discriminate.
    apply andb_true_iff in H. destruct H as [H1 H2].
    exists dp, cp. repeat split; try reflexivity.
    + now apply Qltb_spec.
    + apply negb_true_iff in H2. now apply Qeq_bool_neq.
  - intros [dp [cp [-> [-> [H3 H4]]]]].
    apply andb_true_iff. split.
    + now apply Qltb_spec.
    + apply negb_true_iff. destruct (Qeq_bool dp 0) eqn:E; [|reflexivity].
      apply Qeq_bool_iff in E. contradiction.
Qed.

(** ** Results *)

Lemma mapM_ok {A B : Type} (f : A -> Result B) (l : list A) (ys : list B) :
  mapM f l = Ok ys -> Forall2 (fun x y => f x = Ok y) l ys.
Proof.
  revert ys. induction l as [|x l IH]; simpl; intros ys H.
  - injection H as <-. constructor.
  - destruct (f x) as [y|e] eqn:Ex; simpl in H; [|discriminate].
    destruct (mapM f l) as [ys'|e]; simpl in H; [|discriminate].
    injection H as <-. constructor; [exact Ex|now apply IH].
Qed.

Lemma mapM_total {A B : Type} (f : A -> Result B) (l : list A) :
  (forall x, In x l -> exists y, f x = Ok y) -> exists ys, mapM f l = Ok ys.
Proof.
  induction l as [|x l IH]; simpl; intros H.
  - now exists [].
  - destruct (H x (or_introl eq_refl)) as [y ->].
    destruct IH as [ys ->]; [intros z Hz; apply H; now right|].
    simpl. now exists (y :: ys).
Qed.

Lemma mapM_raise {A B : Type} (f : A -> Result B) (l : list A) (x : A)
  (e : Exn) :
  In x l -> f x = Raise e -> exists e', mapM f l = Raise e'.
Proof.
  induction l as [|y l IH]; simpl; intros Hin Hx.
  - contradiction.
  - destruct (f y) as [b|e0] eqn:Ey; simpl; [|now exists e0].
    destruct Hin as [->|Hin]; [congruence|].
    destruct (IH Hin Hx) as [e' ->]. simpl. now exists e'.
Qed.

Lemma Forall2_map_eq {A B C : Type} (R : A -> B -> Prop) (g : A -> C)
  (h : B -> C) (l : list A) (ys : list B) :
  (forall x y, R x y -> h y = g x) ->
  Forall2 R l ys -> map h ys = map g l.
Proof.
  intros H. induction 1 as [|x y l ys Hxy _ IH]; simpl.
  - reflexivity.
  - now rewrite (H x y Hxy), IH.
Qed.

Lemma Forall2_In_r {A B : Type} (R : A -> B -> Prop) (l : list A)
  (ys : list B) (y : B) :
  Forall2 R l ys -> In y ys -> exists x, In x l /\ R x y.
Proof.
  induction 1 as [|x y' l ys Hxy _ IH]; simpl; intros Hin.
  - contradiction.
  - destruct Hin as [->|Hin].
    + exists x. split; [now left|exact Hxy].
    + destruct (IH Hin) as [x' [H1 H2]]. exists x'. split; [now right|exact H2].
Qed.

(** ** [idxmax] *)

Lemma idxmax_from_spec (best : FRow) (bv : Q) (l : list FRow) :
  Search_Volume best = Some bv ->
  exists v, Search_Volume (idxmax_from best bv l) = Some v
            /\ (idxmax_from best bv l = best \/ In (idxmax_from best bv l) l)
            /\ (bv <= v)%Q
            /\ forall r w, In r l -> Search_Volume r = Some w -> (w <= v)%Q.
Proof.
  revert best bv. induction l as [|r l IH]; simpl; intros best bv Hb.
  - exists bv. repeat split; auto using Qle_refl. intros r w [].
  - destruct (Search_Volume r) as [v|] eqn:Hr.
    + destruct (Qltb bv v) eqn:E.
      * destruct (IH r v Hr) as [m [H1 [H2 [H3 H4]]]].
        exists m. split; [exact H1|]. split; [|split].
        -- destruct H2 as [->|H2]; right; [now left|now right].
        -- apply Qltb_spec in E. apply Qle_trans with v; [|exact H3].
           now apply Qlt_le_weak.
        -- intros r' w [<-|Hin] Hw; [|now apply (H4 r')].
           rewrite Hr in Hw. injection Hw as <-. exact H3.
      * destruct (IH best bv Hb) as [m [H1 [H2 [H3 H4]]]].
        exists m. split; [exact H1|]. split; [|split].
        -- destruct H2 as [H2|H2]; [now left|right; now right].
        -- exact H3.
        -- intros r' w [<-|Hin] Hw; [|now apply (H4 r')].
           rewrite Hr in Hw. injection Hw as <-.
           apply Qltb_false in E. now apply Qle_trans with bv.
    + destruct (IH best bv Hb) as [m [H1 [H2 [H3 H4]]]].
      exists m. split; [exact H1|]. split; [|split].
      * destruct H2 as [H2|H2]; [now left|right; now right].
      * exact H3.
      * intros r' w [<-|Hin] Hw; [congruence|now apply (H4 r')].
Qed.

(** The row [idxmax] selects is a row of the group whose volume is a number
    and is the largest of the group. *)
Lemma idxmax_is_max (l : list FRow) (top : FRow) :
  idxmax l = Some top ->
  In top l
  /\ exists v, Search_Volume top = Some v
               /\ forall r w, In r l -> Search_Volume r = Some w -> (w <= v)%Q.
Proof.
  induction l as [|r l IH]; simpl; intros H.
  - discriminate.
  - destruct (Search_Volume r) as [v|] eqn:Hr.
    + injection H as <-.
      destruct (idxmax_from_spec r v l Hr) as [m [H1 [H2 [H3 H4]]]].
      split; [destruct H2 as [->|H2]; [now left|now right]|].
      exists m. split; [exact H1|].
      intros r' w [<-|Hin] Hw; [|now apply (H4 r')].
      rewrite Hr in Hw. now injection Hw as <-.
    + destruct (IH H) as [H1 [m [H2 H3]]]. split; [now right|].
      exists m. split; [exact H2|].
      intros r' w [<-|Hin] Hw; [congruence|now apply (H3 r')].
Qed.

Lemma idxmax_none (l : list FRow) :
  idxmax l = None <-> forall r, In r l -> Search_Volume r = None.
Proof.
  induction l as [|r l IH]; simpl.
  - split; [intros _ r []|reflexivity].
  - destruct (Search_Volume r) as [v|] eqn:Hr.
    + split; [discriminate|]. intros H.
      specialize (H r (or_introl eq_refl)). congruence.
    + rewrite IH. split.
      * intros H r' [<-|Hin]; [exact Hr|now apply H].
      * intros H r' Hin. apply H. now right.
Qed.

Lemma competitor_urls_In (filtered_df : list FRow) (u : string) :
  In u (competitor_urls filtered_df)
  <-> exists r, In r filtered_df /\ Competitor_URL r = Some u.
Proof.
  unfold competitor_urls. rewrite in_flat_map. split.
  - intros [r [Hr Hu]]. exists r. split; [exact Hr|].
    destruct (Competitor_URL r) as [u'|]; [|contradiction].
    destruct Hu as [->|[]]. reflexivity.
  - intros [r [Hr Hu]]. exists r. split; [exact Hr|]. rewrite Hu. now left.
Qed.

Lemma group_keys_perm (filtered_df : list FRow) :
  Permutation (group_keys filtered_df)
    (drop_duplicates (fun u : string => u) String.eqb
                     (competitor_urls filtered_df)).
Proof. apply stable_sort_perm. Qed.

Lemma group_keys_In (filtered_df : list FRow) (u : string) :
  In u (group_keys filtered_df)
  <-> exists r, In r filtered_df /\ Competitor_URL r = Some u.
Proof.
  rewrite <- competitor_urls_In. split; intros H.
  - apply (Permutation_in _ (group_keys_perm filtered_df)) in H.
    exact (proj1 (drop_duplicates_In String.eqb string_eqb_spec _ _) H).
  - apply (Permutation_in _ (Permutation_sym (group_keys_perm filtered_df))).
    exact (proj2 (drop_duplicates_In String.eqb string_eqb_spec _ _) H).
Qed.

Lemma group_keys_NoDup (filtered_df : list FRow) :
  NoDup (group_keys filtered_df).
Proof.
  apply Permutation_NoDup with
    (drop_duplicates (fun u : string => u) String.eqb
                     (competitor_urls filtered_df)).
  - apply Permutation_sym, group_keys_perm.
  - apply (drop_duplicates_NoDup String.eqb string_eqb_spec).
Qed.

Lemma group_keys_sorted (filtered_df : list FRow) :
  StronglySorted (fun a b => String.leb a b = true) (group_keys filtered_df).
Proof.
  apply stable_sort_sorted; [apply string_leb_total|apply string_leb_trans].
Qed.

(** The number of groups is the number of distinct Competitor URL values. *)
Lemma group_keys_length (filtered_df : list FRow) :
  List.length (group_keys filtered_df)
  = List.length (nodup string_dec (competitor_urls filtered_df)).
Proof.
  apply Permutation_length. apply NoDup_Permutation.
  - apply group_keys_NoDup.
  - apply NoDup_nodup.
  - intros u. rewrite nodup_In, group_keys_In, competitor_urls_In. tauto.
Qed.

Lemma group_of_In (filtered_df : list FRow) (u : string) (r : FRow) :
  In r (group_of filtered_df u)
  <-> In r filtered_df /\ Competitor_URL r = Some u.
Proof.
  unfold group_of. rewrite filter_In, text_equal_spec. split.
  - intros [H [s [H1 H2]]]. injection H2 as <-. auto.
  - intros [H H1]. split; [exact H|]. now exists u.
Qed.

Section AggregatorFacts.
Context {L : Pandas}.

Lemma require_present (cols : list string) (c : string) :
  In c cols -> require cols c = Ok tt.
Proof.
  intros H. unfold require. apply has_column_spec in H. now rewrite H.
Qed.

Lemma get_domain_info_ok (cols : list string) (row : FRow)
  (group_df : list FRow) (info : string) :
  get_domain_info cols row group_df = Ok info ->
  info = String.concat ", " (map info_entry (filter (domain_ranks row) group_df)).
Proof.
  unfold get_domain_info.
  destruct (require cols "Keyword"); simpl; [|discriminate].
  destruct (require cols "Domain"); simpl; [|discriminate].
  destruct (require cols "Domain Position"); simpl; [|discriminate].
  destruct (filter (domain_ranks row) group_df); intros H; now injection H as <-.
Qed.

(** What a row of the output is made of. *)
Lemma summarise_ok (cols : list string) (filtered_df : list FRow)
  (g : string * list FRow) (o : OutRow) :
  summarise cols filtered_df g = Ok o ->
  exists top kws avg info,
    idxmax (snd g) = Some top
    /\ join ", " (map (@Keyword _ _) (sort_by_volume (snd g))) = Ok kws
    /\ mean (map (@Keyword_Difficulty _ _) (snd g)) = Ok avg
    /\ get_domain_info cols top filtered_df = Ok info
    /\ o = {| out_Competitor_URL := fst g;
              Topic := Keyword top;
              Keywords := kws;
              out_Search_Volume := series_sum (map (@Search_Volume _ _) (snd g));
              out_Keyword_Difficulty := round avg;
              Domain_s_Info := info;
              Creation_or_Optimization :=
                match info with
                | EmptyString => "Creation"
                | String _ _ => "Optimization"
                end |}.
Proof.
  unfold summarise, loc_idxmax.
  destruct (require cols "Search Volume"); simpl; [|discriminate].
  destruct (idxmax (snd g)) as [top|]; simpl; [|discriminate].
  destruct (require cols "Keyword"); simpl; [|discriminate].
  destruct (join ", " (map (@Keyword _ _) (sort_by_volume (snd g))))
    as [kws|]; simpl; [|discriminate].
  destruct (require cols "Keyword Difficulty"); simpl; [|discriminate].
  destruct (mean (map (@Keyword_Difficulty _ _) (snd g))) as [avg|];
    simpl; [|discriminate].
  destruct (get_domain_info cols top filtered_df) as [info|] eqn:Ei;
    simpl; [|discriminate].
  intros H. injection H as <-. now exists top, kws, avg, info.
Qed.

Lemma final_rows_ok (cols : list string) (filtered_df : list FRow)
  (rows_ : list OutRow) :
  final_rows cols filtered_df = Ok rows_ ->
  Forall2 (fun g o => summarise cols filtered_df g = Ok o)
          (groupby filtered_df) rows_.
Proof.
  unfold final_rows.
  destruct (require cols "Competitor URL"); simpl; [|discriminate].
  apply mapM_ok.
Qed.

Lemma final_rows_urls (cols : list string) (filtered_df : list FRow)
  (rows_ : list OutRow) :
  final_rows cols filtered_df = Ok rows_ ->
  map out_Competitor_URL rows_ = group_keys filtered_df.
Proof.
  intros H. apply final_rows_ok in H.
  transitivity (map fst (groupby filtered_df)).
  - apply Forall2_map_eq
      with (R := fun g o => summarise cols filtered_df g = Ok o); [|exact H].
    intros g o Ho. apply summarise_ok in Ho.
    destruct Ho as [top [kws [avg [info [_ [_ [_ [_ ->]]]]]]]]. reflexivity.
  - unfold groupby. rewrite map_map. simpl. apply map_id.
Qed.

(** The trailing [drop_duplicates] drops nothing. *)
Lemma Aggregator_ok (cols : list string) (filtered_df : list FRow)
  (final_df : list OutRow) :
  Aggregator cols filtered_df = Ok final_df <->
  final_rows cols filtered_df = Ok final_df.
Proof.
  unfold Aggregator.
  destruct (final_rows cols filtered_df) as [rows_|e] eqn:E; simpl.
  - rewrite (drop_duplicates_id out_Competitor_URL String.eqb string_eqb_spec).
    + tauto.
    + rewrite (final_rows_urls _ _ _ E). apply group_keys_NoDup.
  - tauto.
Qed.

Lemma Aggregator_row (cols : list string) (filtered_df : list FRow)
  (final_df : list OutRow) (o : OutRow) :
  Aggregator cols filtered_df = Ok final_df -> In o final_df ->
  In (out_Competitor_URL o) (group_keys filtered_df)
  /\ summarise cols filtered_df
       (out_Competitor_URL o, group_of filtered_df (out_Competitor_URL o))
     = Ok o.
Proof.
  intros H Ho. apply Aggregator_ok in H. apply final_rows_ok in H.
  destruct (Forall2_In_r _ _ _ _ H Ho) as [g [Hg Hs]].
  unfold groupby in Hg. apply in_map_iff in Hg.
  destruct Hg as [u [<- Hu]].
  pose proof (summarise_ok _ _ _ _ Hs) as [top [kws [avg [info [_ [_ [_ [_ Eo]]]]]]]].
  assert (Hurl : out_Competitor_URL o = u) by (rewrite Eo; reflexivity).
  rewrite Hurl. split; [exact Hu|exact Hs].
Qed.

End AggregatorFacts.

Lemma volume_geb_total (a b : option Q) :
  volume_geb a b = true \/ volume_geb b a = true.
Proof.
  destruct a as [x|], b as [y|]; simpl; auto.
  destruct (Qle_bool y x) eqn:E; [now left|right].
  apply Qle_bool_iff. apply Qlt_le_weak. apply Qnot_le_lt.
  intros H. apply Qle_bool_iff in H. congruence.
Qed.

Lemma volume_geb_trans (a b c : option Q) :
  volume_geb a b = true -> volume_geb b c = true -> volume_geb a c = true.
Proof.
  destruct a as [x|], b as [y|], c as [z|]; simpl; intros H1 H2;
    try discriminate; try reflexivity.
  apply Qle_bool_iff in H1, H2. apply Qle_bool_iff.
  now apply Qle_trans with y.
Qed.

Lemma map_fst_combine {A B : Type} (l1 : list A) (l2 : list B) :
  List.length l1 = List.length l2 -> map fst (combine l1 l2) = l1.
Proof.
  revert l2. induction l1 as [|x l1 IH]; intros [|y l2] H; simpl in *;
    try discriminate; try reflexivity.
  f_equal. apply IH. now injection H.
Qed.

Lemma combine_seq_nth {A : Type} (l : list A) (s i : nat) (k : A) :
  In (i, k) (combine (seq s (List.length l)) l) ->
  s <= i /\ nth_error l (i - s) = Some k.
Proof.
  revert s. induction l as [|x l IH]; simpl; intros s H.
  - contradiction.
  - destruct H as [H|H].
    + injection H as <- <-. split; [lia|]. now rewrite Nat.sub_diag.
    + apply IH in H. destruct H as [H1 H2]. split; [lia|].
      replace (i - s) with (S (i - S s)) by lia. exact H2.
Qed.

Lemma take_pairs {A : Type} (l : list A) (ps : list (nat * A)) :
  (forall p, In p ps -> nth_error l (fst p) = Some (snd p)) ->
  take (map fst ps) l = map snd ps.
Proof.
  unfold take. induction ps as [|p ps IH]; simpl; intros H.
  - reflexivity.
  - rewrite (H p (or_introl eq_refl)). simpl. f_equal.
    apply IH. intros q Hq. apply H. now right.
Qed.

Lemma StronglySorted_map {A B : Type} (f : A -> B) (R : B -> B -> Prop)
  (l : list A) :
  StronglySorted (fun a b => R (f a) (f b)) l -> StronglySorted R (map f l).
Proof.
  induction 1 as [|x l Hs IH Hx]; simpl; constructor.
  - exact IH.
  - rewrite Forall_forall in *. intros y Hy. apply in_map_iff in Hy.
    destruct Hy as [z [<- Hz]]. now apply Hx.
Qed.

Lemma stable_argsort_desc_perm (keys : list (option Q)) :
  Permutation (stable_argsort_desc keys) (seq 0 (List.length keys)).
Proof.
  unfold stable_argsort_desc.
  rewrite <- (map_fst_combine (seq 0 (List.length keys)) keys) at 2
    by apply length_seq.
  apply Permutation_map. apply stable_sort_perm.
Qed.

Lemma stable_argsort_desc_sorted (keys : list (option Q)) :
  StronglySorted (fun a b => volume_geb a b = true)
                 (take (stable_argsort_desc keys) keys).
Proof.
  unfold stable_argsort_desc. rewrite take_pairs.
  - apply StronglySorted_map.
    apply (stable_sort_sorted
             (fun a b : nat * option Q => volume_geb (snd a) (snd b))).
    + intros a b. apply volume_geb_total.
    + intros a b c. apply volume_geb_trans.
  - intros [i k] Hp.
    apply (Permutation_in _ (stable_sort_perm _ _)) in Hp.
    apply combine_seq_nth in Hp. destruct Hp as [_ Hp]. simpl.
    now rewrite Nat.sub_0_r in Hp.
Qed.

Lemma reference_pandas_laws : PandasLaws reference_pandas.
Proof.
  split.
  - apply stable_argsort_desc_perm.
  - apply stable_argsort_desc_sorted.
Qed.

#[local] Existing Instance reference_pandas_laws.

Lemma rint_comp (x y : Q) : (x == y)%Q -> rint x = rint y.
Proof.
  intros E. unfold rint. rewrite (Qfloor_comp _ _ E).
  assert (E' : (x - inject_Z (Qfloor y) == y - inject_Z (Qfloor y))%Q)
    by now rewrite E.
  now rewrite (Qcompare_comp _ _ E' _ _ (Qeq_refl (1 # 2))).
Qed.

Lemma rint_Z (z : Z) : rint (inject_Z z) = z.
Proof.
  unfold rint. rewrite Qfloor_Z.
  assert (E : Qcompare (inject_Z z - inject_Z z) (1 # 2) = Lt).
  { apply (proj1 (Qlt_alt _ _)). generalize (inject_Z z). intros y. lra. }
  now rewrite E.
Qed.

Lemma round_half_even_of_rounded (x : Q) :
  round_half_even (round_half_even x) = round_half_even x.
Proof.
  unfold round_half_even at 1 3. f_equal. f_equal.
  transitivity (rint (inject_Z (rint (x * 100)))); [|apply rint_Z].
  apply rint_comp. unfold round_half_even.
  generalize (inject_Z (rint (x * 100))). intros y. field.
Qed.

Lemma Qplus_0_r_eq (v : Q) : (v + 0)%Q = v.
Proof.
  destruct v as [n d]. unfold Qplus. simpl.
  rewrite Z.mul_1_r, Z.add_0_r, Pos.mul_1_r. reflexivity.
Qed.

Lemma Qdiv_1_r_eq (v : Q) : (v / inject_Z (Z.of_nat 1))%Q = v.
Proof.
  destruct v as [n d]. unfold Qdiv, Qmult, Qinv. simpl.
  rewrite Z.mul_1_r, Pos.mul_1_r. reflexivity.
Qed.

Lemma reference_arithmetic_laws : ArithmeticLaws reference_pandas.
Proof.
  constructor; simpl.
  - intros l. unfold exact_sum at 1. simpl. apply Qplus_0_r_eq.
  - intros x. unfold exact_mean. simpl. f_equal.
    rewrite Qplus_0_r_eq. apply Qdiv_1_r_eq.
  - reflexivity.
  - apply round_half_even_of_rounded.
Qed.

#[local] Existing Instance reference_arithmetic_laws.

(** ** Texts *)

Lemma append_nonempty_l (a b : string) : a <> "" -> (a ++ b)%string <> "".
Proof. destruct a; simpl; [congruence|discriminate]. Qed.

Lemma append_nonempty_r (a b : string) : b <> "" -> (a ++ b)%string <> "".
Proof. destruct a; simpl; [auto|discriminate]. Qed.

Lemma concat_nonempty (sep : string) (l : list string) :
  l <> [] -> (forall x, In x l -> x <> "") -> String.concat sep l <> "".
Proof.
  destruct l as [|x [|y l]]; simpl; intros Hl Hx.
  - congruence.
  - apply Hx. now left.
  - apply append_nonempty_l. apply Hx. now left.
Qed.

Lemma info_entry_nonempty {L : Pandas} (x : FRow) : info_entry x <> "".
Proof.
  unfold info_entry. apply append_nonempty_r. discriminate.
Qed.

(** ** Counting and selecting *)

Section AggregatorSupport.
Context {L : Pandas}.

(** The mask of [get_domain_info], in words: same Keyword, same Domain
    (a missing value equals nothing) and a Domain Position above 0. *)
Lemma domain_ranks_spec (row x : FRow) :
  domain_ranks row x = true <->
  exists k d p,
    Keyword row = Some k /\ Keyword x = Some k
    /\ Domain row = Some d /\ Domain x = Some d
    /\ Domain_Position x = Some p /\ (0 < p)%Q.
Proof.
  unfold domain_ranks. rewrite !andb_true_iff, !text_equal_spec. split.
  - intros [[[k [Hk1 Hk2]] [d [Hd1 Hd2]]] Hp].
    unfold gt in Hp. destruct (Domain_Position x) as [p|]; [|discriminate].
    apply Qltb_spec in Hp. now exists k, d, p.
  - intros [k [d [p [Hk1 [Hk2 [Hd1 [Hd2 [Hp1 Hp2]]]]]]]].
    repeat split.
    + now exists k.
    + now exists d.
    + rewrite Hp1. simpl. now apply Qltb_spec.
Qed.

Lemma info_entry_format (x : FRow) (k d : string) (p : Q) :
  Keyword x = Some k -> Domain x = Some d -> Domain_Position x = Some p ->
  info_entry x = (k ++ " (" ++ d ++ " - " ++ num_to_str p ++ ")")%string.
Proof. unfold info_entry. now intros -> -> ->. Qed.

(** ** The numbers of a column *)

Lemma numbers_ok (l : list Cell) (qs : list (option Q)) :
  numbers l = Ok qs ->
  qs = map (fun c => match c with
                     | Num q => Some q
                     | _ => None
                     end) l
  /\ forall s, ~ In (Text s) l.
Proof.
  revert qs. induction l as [|c l IH]; simpl; intros qs H.
  - injection H as <-. split; [reflexivity|]. intros s [].
  - destruct c as [|s|q]; [| discriminate |];
      (destruct (numbers l) as [qs'|] eqn:E; simpl in H; [|discriminate];
       injection H as <-; destruct (IH _ eq_refl) as [-> Hn];
       split; [reflexivity|];
       intros s [E'|Hs]; [discriminate|now apply (Hn s)]).
Qed.

End AggregatorSupport.

(** ** Rearrangements *)

Lemma take_seq {A : Type} (pre l : list A) :
  flat_map (fun i => match nth_error (pre ++ l) i with
                     | Some x => [x]
                     | None => []
                     end) (seq (List.length pre) (List.length l)) = l.
Proof.
  revert pre. induction l as [|x l IH]; intros pre; simpl.
  - reflexivity.
  - rewrite nth_error_app2 by lia. rewrite Nat.sub_diag. simpl. f_equal.
    specialize (IH (pre ++ [x])).
    rewrite <- app_assoc, length_app in IH. simpl in IH.
    rewrite Nat.add_1_r in IH. exact IH.
Qed.

Lemma take_perm {A : Type} (indexer : list nat) (l : list A) :
  Permutation indexer (seq 0 (List.length l)) -> Permutation (take indexer l) l.
Proof.
  intros H. unfold take.
  eapply perm_trans; [apply Permutation_flat_map; exact H|].
  pose proof (take_seq [] l) as E. simpl in E. rewrite E.
  apply Permutation_refl.
Qed.

Lemma sort_by_volume_perm {L : Pandas} {LL : PandasLaws L} {P : Type}
  (df : list (Row (option Q) P)) :
  Permutation (sort_by_volume df) df.
Proof.
  unfold sort_by_volume. apply take_perm.
  rewrite <- (length_map (@Search_Volume _ _) df). apply argsort_desc_perm.
Qed.

Lemma take_map {A B : Type} (f : A -> B) (indexer : list nat) (l : list A) :
  take indexer (map f l) = map f (take indexer l).
Proof.
  unfold take. induction indexer as [|i indexer IH]; simpl.
  - reflexivity.
  - rewrite map_app, <- IH, nth_error_map.
    now destruct (nth_error l i).
Qed.

(** The one-column sort puts the volumes in descending order, missing
    values last. *)
Lemma sort_by_volume_sorted {L : Pandas} {LL : PandasLaws L} {P : Type}
  (df : list (Row (option Q) P)) :
  StronglySorted (fun a b => volume_geb a b = true)
                 (map (@Search_Volume _ _) (sort_by_volume df)).
Proof.
  unfold sort_by_volume. rewrite <- take_map. apply argsort_desc_sorted.
Qed.

Lemma NoDup_map_filter {A K : Type} (key : A -> K) (f : A -> bool)
  (l : list A) :
  NoDup (map key l) -> NoDup (map key (filter f l)).
Proof.
  induction l as [|x l IH]; simpl; intros H.
  - constructor.
  - inversion H as [|k ks Hk Hnd]; subst.
    destruct (f x); simpl; [|now apply IH].
    constructor; [|now apply IH].
    rewrite in_map_iff. intros [y [Hy Hin]]. apply Hk.
    apply filter_In in Hin. rewrite <- Hy. apply in_map. tauto.
Qed.

(** In a list with distinct keys, a test that only rows with the key of [x]
    can pass selects [x] or nothing. *)
Lemma filter_unique_key {A K : Type} (key : A -> K) (f : A -> bool)
  (l : list A) (x : A) :
  NoDup (map key l) -> In x l ->
  (forall y, In y l -> f y = true -> key y = key x) ->
  filter f l = if f x then [x] else [].
Proof.
  induction l as [|y l IH]; simpl; intros Hnd Hin Hf.
  - contradiction.
  - inversion Hnd as [|k ks Hk Hnd']; subst.
    destruct Hin as [->|Hin].
    + rewrite (filter_none f l); [now destruct (f x)|].
      intros z Hz. destruct (f z) eqn:E; [|reflexivity].
      exfalso. apply Hk. rewrite <- (Hf z (or_intror Hz) E). now apply in_map.
    + destruct (f y) eqn:E.
      * exfalso. apply Hk. rewrite (Hf y (or_introl eq_refl) E).
        now apply in_map.
      * apply IH; auto.
Qed.

Lemma stable_sort_sorted_id {A : Type} (leb : A -> A -> bool) (l : list A) :
  StronglySorted (fun a b => leb a b = true) l -> stable_sort leb l = l.
Proof.
  induction 1 as [|x l Hs IH Hx]; simpl.
  - reflexivity.
  - rewrite IH. destruct l as [|y l]; simpl; [reflexivity|].
    inversion Hx as [|? ? Hxy _]; subst. now rewrite Hxy.
Qed.

Lemma texts_ok (l : list (option string)) (ss : list string) :
  texts l = Ok ss -> forall x, In x l -> exists s, x = Some s.
Proof.
  revert ss. induction l as [|[s|] l IH]; simpl; intros ss H x Hx.
  - contradiction.
  - destruct (texts l) as [ss'|] eqn:E; simpl in H; [|discriminate].
    destruct Hx as [<-|Hx]; [now exists s|]. now apply (IH ss').
  - discriminate.
Qed.

Lemma texts_total (l : list (option string)) :
  (forall x, In x l -> x <> None) -> exists ss, texts l = Ok ss.
Proof.
  induction l as [|[s|] l IH]; simpl; intros H.
  - now exists [].
  - destruct IH as [ss ->]; [intros x Hx; apply H; now right|].
    simpl. now exists (s :: ss).
  - exfalso. now apply (H None (or_introl eq_refl)).
Qed.

(** ** Groups without a Search Volume *)

Section PipelineFacts.
Context {L : Pandas} {LL : PandasLaws L}.

Lemma main_final (uploaded_files : list Upload) (final_df : list OutRow) :
  main uploaded_files = Final final_df ->
  exists csv_list,
    read_all uploaded_files = inr csv_list
    /\ Aggregator (columns (concat csv_list))
                  (filtered_table (concat csv_list)) = Ok final_df.
Proof.
  unfold main. destruct uploaded_files as [|f fs]; [discriminate|].
  destruct (read_all (f :: fs)) as [m|csv_list]; [discriminate|].
  destruct (missing_columns (concat csv_list)); [|discriminate].
  destruct (negb (has_column (columns (concat csv_list)) "Competitor Position"));
    [discriminate|].
  fold (filtered_table (concat csv_list)).
  destruct (Aggregator (columns (concat csv_list))
                       (filtered_table (concat csv_list))) as [out|e] eqn:E;
    [|discriminate].
  intros H. injection H as <-. now exists csv_list.
Qed.

Lemma group_without_volume_raises (cols : list string)
  (filtered_df : list FRow) (u : string) :
  (exists r, In r filtered_df /\ Competitor_URL r = Some u) ->
  (forall r, In r filtered_df -> Competitor_URL r = Some u ->
             Search_Volume r = None) ->
  loc_idxmax (group_of filtered_df u) = Raise (KeyError NaNKey)
  /\ exists e, Aggregator cols filtered_df = Raise e.
Proof.
  intros Hex Hnone.
  assert (Hidx : idxmax (group_of filtered_df u) = None).
  { apply idxmax_none. intros r Hr. apply group_of_In in Hr.
    now apply Hnone. }
  split; [unfold loc_idxmax; now rewrite Hidx|].
  unfold Aggregator, final_rows.
  destruct (require cols "Competitor URL") as [[]|e]; simpl; [|now exists e].
  assert (Hs : exists e, summarise cols filtered_df (u, group_of filtered_df u)
                         = Raise e).
  { unfold summarise, loc_idxmax. simpl.
    destruct (require cols "Search Volume") as [[]|e]; simpl; [|now exists e].
    rewrite Hidx. simpl. now exists (KeyError NaNKey). }
  destruct Hs as [e Hs].
  destruct (mapM_raise (summarise cols filtered_df) (groupby filtered_df)
              (u, group_of filtered_df u) e) as [e' He'].
  - unfold groupby. apply in_map_iff. exists u. split; [reflexivity|].
    now apply group_keys_In.
  - exact Hs.
  - rewrite He'. simpl. now exists e'.
Qed.

(** ** One row per Keyword *)

Lemma Ranker_keywords {P : Type} (dedup_df : list (Row Cell P)) :
  Permutation (map (@Keyword _ _) (Ranker dedup_df))
              (map (@Keyword _ _) dedup_df).
Proof.
  unfold Ranker.
  apply perm_trans
    with (map (@Keyword _ _) (map coerce_volume dedup_df)).
  - apply Permutation_map. apply sort_by_volume_perm.
  - rewrite map_map. simpl. apply Permutation_refl.
Qed.

(** After the Deduplicator, and through ranking and filtering, no two rows
    have the same Keyword. *)
Lemma filtered_keywords_NoDup (merged_df : list (Row Cell Cell)) :
  NoDup (map (@Keyword _ _) (Filter (Ranker (Deduplicator merged_df)))).
Proof.
  unfold Filter. apply NoDup_map_filter. rewrite map_map. simpl.
  apply Permutation_NoDup
    with (map (@Keyword _ _) (Deduplicator merged_df)).
  - apply Permutation_sym. apply Ranker_keywords.
  - apply (drop_seen_NoDup (@Keyword _ _) text_eqb text_eqb_spec).
Qed.

(** ** The output table grouped again *)

Lemma Forall2_combine_In {A B : Type} (R : A -> B -> Prop) (l1 : list A)
  (l2 : list B) (a : A) (b : B) :
  Forall2 R l1 l2 -> In (a, b) (combine l1 l2) -> R a b.
Proof.
  induction 1 as [|x y l1 l2 Hxy _ IH]; simpl; [intros []|].
  intros [E|Hin]; [injection E as <- <-; exact Hxy|now apply IH].
Qed.

Lemma Forall2_combine_snd {A B : Type} (R : A -> B -> Prop) (l1 : list A)
  (l2 : list B) :
  Forall2 R l1 l2 -> map snd (combine l1 l2) = l2.
Proof. induction 1 as [|x y l1 l2 _ _ IH]; simpl; [reflexivity|now rewrite IH]. Qed.

Lemma reads_as_urls (t : list FRow) (final_df : list OutRow) :
  Forall2 reads_as t final_df ->
  map (@Competitor_URL _ _) t
  = map (fun o => Some (out_Competitor_URL o)) final_df.
Proof.
  induction 1 as [|r o t l [Hu _] _ IH]; simpl; [reflexivity|].
  now rewrite Hu, IH.
Qed.

Lemma competitor_urls_reads_as (t : list FRow) (final_df : list OutRow) :
  Forall2 reads_as t final_df ->
  competitor_urls t = map out_Competitor_URL final_df.
Proof.
  unfold competitor_urls.
  induction 1 as [|r o t l [Hu _] _ IH]; simpl; [reflexivity|].
  now rewrite Hu, IH.
Qed.

Lemma group_keys_reads_as (t : list FRow) (final_df : list OutRow) :
  Forall2 reads_as t final_df ->
  NoDup (map out_Competitor_URL final_df) ->
  StronglySorted (fun a b => String.leb a b = true)
                 (map out_Competitor_URL final_df) ->
  group_keys t = map out_Competitor_URL final_df.
Proof.
  intros Ht Hnd Hs. unfold group_keys. fold (competitor_urls t).
  rewrite (competitor_urls_reads_as _ _ Ht).
  rewrite (drop_duplicates_id (fun u : string => u) String.eqb string_eqb_spec)
    by now rewrite map_id.
  now apply stable_sort_sorted_id.
Qed.

Lemma group_of_reads_as (t : list FRow) (final_df : list OutRow)
  (r : FRow) (o : OutRow) :
  Forall2 reads_as t final_df ->
  NoDup (map out_Competitor_URL final_df) -> In (r, o) (combine t final_df) ->
  group_of t (out_Competitor_URL o) = [r].
Proof.
  intros Ht Hnd Hro. unfold group_of.
  destruct (Forall2_combine_In _ _ _ _ _ Ht Hro) as [Hu _].
  rewrite (filter_unique_key (@Competitor_URL _ _) _ _ r).
  - rewrite Hu. simpl. now rewrite String.eqb_refl.
  - rewrite (reads_as_urls _ _ Ht).
    rewrite <- (map_map out_Competitor_URL Some).
    apply Injective_map_NoDup; [|exact Hnd].
    intros a b E. now injection E.
  - now apply in_combine_l in Hro.
  - intros y _ Hy. apply text_equal_spec in Hy.
    destruct Hy as [s [H1 H2]]. congruence.
Qed.

(** ** The two column checks *)

Lemma missing_columns_spec (merged_df : DataFrame) (c : string) :
  In c (missing_columns merged_df)
  <-> In c required_columns /\ ~ In c (columns merged_df).
Proof.
  unfold missing_columns. rewrite filter_In, negb_true_iff.
  split; intros [H1 H2]; (split; [exact H1|]).
  - intros Hin. apply has_column_spec in Hin. congruence.
  - destruct (has_column (columns merged_df) c) eqn:E; [|reflexivity].
    exfalso. apply H2. now apply has_column_spec.
Qed.

End PipelineFacts.

(** ** When the Aggregator returns a table *)

Lemma numbers_total (l : list Cell) :
  (forall s, ~ In (Text s) l) -> exists qs, numbers l = Ok qs.
Proof.
  induction l as [|c l IH]; simpl; intros H.
  - now exists [].
  - destruct IH as [qs Hqs]; [intros s Hs; apply (H s); now right|].
    destruct c as [|s|q].
    + rewrite Hqs. simpl. now exists (None :: qs).
    + exfalso. apply (H s). now left.
    + rewrite Hqs. simpl. now exists (Some q :: qs).
Qed.

(** The Aggregator returns a table when the frame has the columns it reads
    and, among the rows with a Competitor URL, every Keyword is a text, no
    Keyword Difficulty is a text and every group has a Search Volume. *)
Lemma Aggregator_total {L : Pandas} {LL : PandasLaws L} (cols : list string)
  (filtered_df : list FRow) :
  (forall c, In c aggregator_columns -> In c cols) ->
  (forall r u, In r filtered_df -> Competitor_URL r = Some u ->
     Keyword r <> None
     /\ (forall s, Keyword_Difficulty r <> Text s)
     /\ exists r', In r' filtered_df /\ Competitor_URL r' = Some u
                   /\ Search_Volume r' <> None) ->
  exists final_df, Aggregator cols filtered_df = Ok final_df.
Proof.
  intros Hcols Hrows.
  assert (Hreq : forall c, In c aggregator_columns -> require cols c = Ok tt).
  { intros c Hc. apply require_present. now apply Hcols. }
  assert (Hf : exists rows_, final_rows cols filtered_df = Ok rows_).
  { unfold final_rows. rewrite Hreq by (simpl; tauto). simpl.
    apply mapM_total. intros g Hg. unfold groupby in Hg.
    apply in_map_iff in Hg. destruct Hg as [u [<- Hu]].
    apply group_keys_In in Hu. destruct Hu as [r0 [Hr0 Hu0]].
    unfold summarise, loc_idxmax, get_domain_info. simpl.
    rewrite !Hreq by (simpl; tauto). simpl.
    destruct (idxmax (group_of filtered_df u)) as [top|] eqn:Ei.
    2:{ exfalso. destruct (Hrows r0 u Hr0 Hu0) as [_ [_ [r' [H1 [H2 H3]]]]].
        apply H3. apply (proj1 (idxmax_none _) Ei). now apply group_of_In. }
    simpl.
    destruct (texts_total (map (@Keyword _ _)
                (sort_by_volume (group_of filtered_df u)))) as [ss Hss].
    { intros x Hx. apply in_map_iff in Hx. destruct Hx as [r [<- Hr]].
      apply (Permutation_in _ (sort_by_volume_perm _)) in Hr.
      apply group_of_In in Hr. destruct Hr as [Hr1 Hr2].
      now destruct (Hrows r u Hr1 Hr2). }
    unfold join. rewrite Hss. simpl.
    destruct (numbers_total (map (@Keyword_Difficulty _ _)
                (group_of filtered_df u))) as [qs Hqs].
    { intros s Hs. apply in_map_iff in Hs. destruct Hs as [r [E Hr]].
      apply group_of_In in Hr. destruct Hr as [Hr1 Hr2].
      destruct (Hrows r u Hr1 Hr2) as [_ [Hk _]]. now apply (Hk s). }
    unfold mean. rewrite Hqs. simpl.
    destruct (filter (domain_ranks top) filtered_df); simpl; eexists;
      reflexivity. }
  destruct Hf as [rows_ Hf]. exists rows_. now apply Aggregator_ok.
Qed.

(** ** The upload loop *)

Lemma read_all_error (good : list Upload) (bad : Upload)
  (rest : list Upload) (e : string) :
  Forall (fun f => exists df, read_csv f = inr df) good ->
  read_csv bad = inl e ->
  read_all (good ++ bad :: rest)
  = inl ("Error uploading `" ++ name bad ++ "`: " ++ e)%string.
Proof.
  intros Hgood Hbad. induction Hgood as [|f good [df Hf] _ IH]; simpl.
  - now rewrite Hbad.
  - now rewrite Hf, IH.
Qed.

(** ** The merged frame read as records *)

Lemma reindex_view (cols : list string) (df : DataFrame) (cells : list Cell)
  (c : string) :
  (In c (columns df) -> In c cols) ->
  cell_of (cell_at cols (reindex cols df cells) c)
  = cell_of (cell_at (columns df) cells c)
  /\ text_of (cell_at cols (reindex cols df cells) c)
     = text_of (cell_at (columns df) cells c).
Proof.
  intros Hsub. destruct (in_dec string_dec c cols) as [Hin|Hout].
  - unfold reindex. rewrite cell_at_map by exact Hin.
    now destruct (cell_at (columns df) cells c).
  - rewrite (cell_at_absent cols) by exact Hout.
    rewrite (cell_at_absent (columns df)) by tauto. now split.
Qed.

Lemma record_of_reindex (cols : list string) (df : DataFrame)
  (cells : list Cell) :
  (forall c, In c (columns df) -> In c cols) ->
  record_of cols (reindex cols df cells) = record_of (columns df) cells.
Proof.
  intros Hsub. unfold record_of. cbv zeta.
  f_equal;
    first [ apply (proj1 (reindex_view cols df cells _ (Hsub _)))
          | apply (proj2 (reindex_view cols df cells _ (Hsub _))) ].
Qed.

Lemma records_of_merged_rows (cols : list string) (l : list DataFrame) :
  (forall df c, In df l -> In c (columns df) -> In c cols) ->
  map (record_of cols)
      (flat_map (fun df => map (reindex cols df) (rows df)) l)
  = flat_map records l.
Proof.
  induction l as [|df l IH]; simpl; intros Hsub.
  - reflexivity.
  - rewrite map_app, map_map, IH by (intros df' c Hd; apply Hsub; now right).
    f_equal. unfold records. apply map_ext. intros cells.
    apply record_of_reindex. intros c. apply Hsub. now left.
Qed.

(** ** The first frame of a merge *)

Lemma drop_seen_app {A K : Type} (key : A -> K) (eqb : K -> K -> bool)
  (seen : list K) (a b : list A) :
  exists seen',
    drop_seen key eqb seen (a ++ b)
    = drop_seen key eqb seen a ++ drop_seen key eqb seen' b.
Proof.
  revert seen. induction a as [|x a IH]; simpl; intros seen.
  - now exists seen.
  - destruct (existsb (eqb (key x)) seen).
    + apply IH.
    + destruct (IH (key x :: seen)) as [seen' ->]. now exists seen'.
Qed.

Lemma reindex_id (cols : list string) (cells : list Cell) :
  NoDup cols -> List.length cells = List.length cols ->
  map (fun c => match cell_at cols cells c with
                | Some v => v
                | None => NaN
                end) cols = cells.
Proof.
  intros Hnd. revert cells.
  induction Hnd as [|k cols Hk _ IH]; intros [|v cells] Hlen;
    simpl in *; try discriminate; try reflexivity.
  rewrite String.eqb_refl. f_equal.
  transitivity (map (fun c => match cell_at cols cells c with
                              | Some v => v
                              | None => NaN
                              end) cols).
  - apply map_ext_in. intros c Hc.
    destruct (String.eqb k c) eqn:E; [|reflexivity].
    apply String.eqb_eq in E. subst. contradiction.
  - apply IH. now injection Hlen.
Qed.

Lemma drop_seen_length {A K : Type} (key : A -> K) (eqb : K -> K -> bool)
  (seen : list K) (l : list A) :
  List.length (drop_seen key eqb seen l) <= List.length l.
Proof.
  revert seen. induction l as [|x l IH]; simpl; intros seen.
  - lia.
  - destruct (existsb (eqb (key x)) seen); simpl.
    + specialize (IH seen). lia.
    + specialize (IH (key x :: seen)). lia.
Qed.

(** ** The first row with the largest volume *)

Lemma idxmax_from_first (best : FRow) (bv : Q) (l : list FRow) :
  Search_Volume best = Some bv ->
  (idxmax_from best bv l = best
   /\ forall r w, In r l -> Search_Volume r = Some w -> (w <= bv)%Q)
  \/ exists v l1 l2,
       l = l1 ++ idxmax_from best bv l :: l2
       /\ Search_Volume (idxmax_from best bv l) = Some v
       /\ (bv < v)%Q
       /\ (forall r w, In r l1 -> Search_Volume r = Some w -> (w < v)%Q)
       /\ (forall r w, In r l2 -> Search_Volume r = Some w -> (w <= v)%Q).
Proof.
  revert best bv. induction l as [|r l IH]; simpl; intros best bv Hb.
  - left. split; [reflexivity|]. intros r w [].
  - destruct (Search_Volume r) as [v|] eqn:Hr.
    + destruct (Qltb bv v) eqn:E.
      * apply Qltb_spec in E. right.
        destruct (IH r v Hr) as [[Ht Hle]|[v' [l1 [l2 [Hl [Hv [Hlt [H1 H2]]]]]]]].
        -- exists v, [], l. rewrite Ht. simpl.
           split; [reflexivity|]. split; [exact Hr|]. split; [exact E|].
           split; [intros r' w []|exact Hle].
        -- exists v', (r :: l1), l2. simpl. rewrite <- Hl.
           split; [reflexivity|]. split; [exact Hv|].
           split; [now apply Qlt_trans with v|]. split; [|exact H2].
           intros r' w [<-|Hin] Hw; [|now apply (H1 r')].
           rewrite Hr in Hw. now injection Hw as <-.
      * apply Qltb_false in E.
        destruct (IH best bv Hb) as [[Ht Hle]|[v' [l1 [l2 [Hl [Hv [Hlt [H1 H2]]]]]]]].
        -- left. split; [exact Ht|].
           intros r' w [<-|Hin] Hw; [|now apply (Hle r')].
           rewrite Hr in Hw. now injection Hw as <-.
        -- right. exists v', (r :: l1), l2. simpl. rewrite <- Hl.
           split; [reflexivity|]. split; [exact Hv|]. split; [exact Hlt|].
           split; [|exact H2].
           intros r' w [<-|Hin] Hw; [|now apply (H1 r')].
           rewrite Hr in Hw. injection Hw as <-.
           now apply Qle_lt_trans with bv.
    + destruct (IH best bv Hb) as [[Ht Hle]|[v' [l1 [l2 [Hl [Hv [Hlt [H1 H2]]]]]]]].
      * left. split; [exact Ht|].
        intros r' w [<-|Hin] Hw; [congruence|now apply (Hle r')].
      * right. exists v', (r :: l1), l2. simpl. rewrite <- Hl.
        split; [reflexivity|]. split; [exact Hv|]. split; [exact Hlt|].
        split; [|exact H2].
        intros r' w [<-|Hin] Hw; [congruence|now apply (H1 r')].
Qed.

Lemma idxmax_first (l : list FRow) (top : FRow) :
  idxmax l = Some top ->
  exists v l1 l2,
    l = l1 ++ top :: l2
    /\ Search_Volume top = Some v
    /\ (forall r w, In r l1 -> Search_Volume r = Some w -> (w < v)%Q)
    /\ (forall r w, In r l2 -> Search_Volume r = Some w -> (w <= v)%Q).
Proof.
  revert top. induction l as [|r l IH]; simpl; intros top H.
  - discriminate.
  - destruct (Search_Volume r) as [v|] eqn:Hr.
    + injection H as <-.
      destruct (idxmax_from_first r v l Hr)
        as [[Ht Hle]|[v' [l1 [l2 [Hl [Hv [Hlt [H1 H2]]]]]]]].
      * exists v, [], l. rewrite Ht. simpl.
        split; [reflexivity|]. split; [exact Hr|].
        split; [intros r' w []|exact Hle].
      * exists v', (r :: l1), l2. simpl. rewrite <- Hl.
        split; [reflexivity|]. split; [exact Hv|]. split; [|exact H2].
        intros r' w [<-|Hin] Hw; [|now apply (H1 r')].
        rewrite Hr in Hw. now injection Hw as <-.
    + destruct (IH top H) as [v' [l1 [l2 [Hl [Hv [H1 H2]]]]]].
      exists v', (r :: l1), l2. simpl. rewrite <- Hl.
      split; [reflexivity|]. split; [exact Hv|]. split; [|exact H2].
      intros r' w [<-|Hin] Hw; [congruence|now apply (H1 r')].
Qed.

(** ** Texts of a join, strict order of the keys *)

Lemma texts_map_some (l : list (option string)) (ss : list string) :
  texts l = Ok ss -> l = map Some ss.
Proof.
  revert ss. induction l as [|[s|] l IH]; simpl; intros ss H.
  - now injection H as <-.
  - destruct (texts l) as [ss'|]; simpl in H; [|discriminate].
    injection H as <-. simpl. f_equal. now apply IH.
  - discriminate.
Qed.

Lemma texts_raise (l : list (option string)) (e : Exn) :
  texts l = Raise e -> e = JoinTypeError.
Proof.
  induction l as [|[s|] l IH]; simpl; intros H.
  - discriminate.
  - destruct (texts l) as [ss'|e']; simpl in H; [discriminate|].
    injection H as <-. now apply IH.
  - now injection H.
Qed.

Lemma numbers_raise (l : list Cell) (e : Exn) :
  numbers l = Raise e -> e = MeanTypeError.
Proof.
  induction l as [|[|s|q] l IH]; simpl; intros H.
  - discriminate.
  - destruct (numbers l) as [qs|e']; simpl in H; [discriminate|].
    injection H as <-. now apply IH.
  - now injection H.
  - destruct (numbers l) as [qs|e']; simpl in H; [discriminate|].
    injection H as <-. now apply IH.
Qed.

Lemma sorted_NoDup_strict (l : list string) :
  StronglySorted (fun a b => String.leb a b = true) l -> NoDup l ->
  StronglySorted (fun a b => String.ltb a b = true) l.
Proof.
  induction 1 as [|x l Hs IH Hx]; intros Hnd.
  - constructor.
  - inversion Hnd as [|? ? Hnotin Hnd']; subst.
    constructor; [now apply IH|].
    rewrite Forall_forall in *. intros y Hy.
    specialize (Hx y Hy). unfold String.leb in Hx. unfold String.ltb.
    destruct (String.compare x y) eqn:E; try discriminate; try reflexivity.
    apply String_as_OT.cmp_eq in E. subst. contradiction.
Qed.

(** ** How the Aggregator and [main] end *)

Lemma mapM_raise_inv {A B : Type} (f : A -> Result B) (l : list A) (e : Exn) :
  mapM f l = Raise e -> exists x, In x l /\ f x = Raise e.
Proof.
  induction l as [|x l IH]; simpl; intros H.
  - discriminate.
  - destruct (f x) as [y|e'] eqn:Ex; simpl in H.
    + destruct (mapM f l) as [ys|e'']; simpl in H; [discriminate|].
      injection H as <-. destruct (IH eq_refl) as [z [Hz Hf]].
      exists z. split; [now right|exact Hf].
    + injection H as <-. exists x. split; [now left|exact Ex].
Qed.

Lemma Forall2_In_l {A B : Type} (R : A -> B -> Prop) (l : list A)
  (ys : list B) (x : A) :
  Forall2 R l ys -> In x l -> exists y, In y ys /\ R x y.
Proof.
  induction 1 as [|x' y l ys Hxy _ IH]; simpl; intros Hin.
  - contradiction.
  - destruct Hin as [->|Hin].
    + exists y. split; [now left|exact Hxy].
    + destruct (IH Hin) as [y' [H1 H2]]. exists y'. split; [now right|exact H2].
Qed.

Section EndingsFacts.
Context {L : Pandas}.

Lemma summarise_raise (cols : list string) (filtered_df : list FRow)
  (g : string * list FRow) (e : Exn) :
  (forall c, In c aggregator_columns -> In c cols) ->
  summarise cols filtered_df g = Raise e ->
  e = KeyError NaNKey \/ e = JoinTypeError \/ e = MeanTypeError.
Proof.
  intros Hcols.
  assert (Hreq : forall c, In c aggregator_columns -> require cols c = Ok tt).
  { intros c Hc. apply require_present. now apply Hcols. }
  unfold summarise, loc_idxmax, get_domain_info, join, mean.
  rewrite !Hreq by (simpl; tauto). simpl.
  destruct (idxmax (snd g)) as [top|]; simpl;
    [|intros H; injection H as <-; now left].
  destruct (texts (map (@Keyword _ _) (sort_by_volume (snd g))))
    as [ss|e1] eqn:Et; simpl.
  2:{ intros H. injection H as <-. right. left. now apply (texts_raise _ _ Et). }
  destruct (numbers (map (@Keyword_Difficulty _ _) (snd g)))
    as [qs|e2] eqn:En; simpl.
  2:{ intros H. injection H as <-. right. right.
      now apply (numbers_raise _ _ En). }
  destruct (filter (domain_ranks top) filtered_df); simpl; discriminate.
Qed.

Lemma Aggregator_raise (cols : list string) (filtered_df : list FRow)
  (e : Exn) :
  (forall c, In c aggregator_columns -> In c cols) ->
  Aggregator cols filtered_df = Raise e ->
  e = KeyError NaNKey \/ e = JoinTypeError \/ e = MeanTypeError.
Proof.
  intros Hcols. unfold Aggregator, final_rows.
  rewrite require_present by (apply Hcols; simpl; tauto). simpl.
  destruct (mapM (summarise cols filtered_df) (groupby filtered_df))
    as [rows_|e'] eqn:E; simpl; [discriminate|].
  intros H. injection H as <-.
  apply mapM_raise_inv in E. destruct E as [g [_ Hg]].
  now apply (summarise_raise cols filtered_df g).
Qed.

Lemma main_ends (uploaded_files : list Upload) :
  uploaded_files = [] /\ main uploaded_files = NoFiles
  \/ (exists m, read_all uploaded_files = inl m
                /\ main uploaded_files = Halted m)
  \/ exists csv_list,
       uploaded_files <> []
       /\ read_all uploaded_files = inr csv_list
       /\ ((missing_columns (concat csv_list) <> []
            /\ main uploaded_files
               = Halted (missing_columns_message
                           (missing_columns (concat csv_list))))
           \/ (missing_columns (concat csv_list) = []
               /\ ~ In "Competitor Position" (columns (concat csv_list))
               /\ main uploaded_files = Halted missing_position_message)
           \/ (missing_columns (concat csv_list) = []
               /\ In "Competitor Position" (columns (concat csv_list))
               /\ main uploaded_files
                  = match Aggregator (columns (concat csv_list))
                                     (filtered_table (concat csv_list)) with
                    | Ok final_df => Final final_df
                    | Raise e => Uncaught e
                    end)).
Proof.
  destruct uploaded_files as [|f fs]; [now left|]. right.
  unfold main. destruct (read_all (f :: fs)) as [m|csv_list] eqn:Er.
  - left. now exists m.
  - right. exists csv_list. split; [discriminate|]. split; [reflexivity|].
    destruct (missing_columns (concat csv_list)) as [|c cs] eqn:Em.
    + right.
      destruct (has_column (columns (concat csv_list)) "Competitor Position")
        eqn:Ec; simpl.
      * right. split; [reflexivity|]. split; [now apply has_column_spec|].
        reflexivity.
      * left. split; [reflexivity|]. split; [|reflexivity].
        intros Hin.
        assert (Hc : has_column (columns (concat csv_list))
                                "Competitor Position" = true)
          by (apply has_column_spec; exact Hin).
        rewrite Ec in Hc. discriminate.
    + left. split; [discriminate|reflexivity].
Qed.

Lemma gates_give_columns (merged_df : DataFrame) :
  missing_columns merged_df = [] ->
  forall c, In c aggregator_columns -> In c (columns merged_df).
Proof.
  intros Hm c Hc.
  destruct (in_dec string_dec c (columns merged_df)) as [H|H]; [exact H|].
  exfalso. assert (Hin : In c (missing_columns merged_df)).
  { apply missing_columns_spec. split; [|exact H].
    simpl in Hc. simpl. tauto. }
  rewrite Hm in Hin. contradiction.
Qed.

Context {LL : PandasLaws L}.

Lemma Aggregator_ok_aggregable (cols : list string) (filtered_df : list FRow)
  (final_df : list OutRow) :
  Aggregator cols filtered_df = Ok final_df -> aggregable filtered_df.
Proof.
  intros H r u Hr Hu. apply Aggregator_ok in H. apply final_rows_ok in H.
  assert (Hg : In (u, group_of filtered_df u) (groupby filtered_df)).
  { unfold groupby. apply in_map_iff. exists u. split; [reflexivity|].
    apply group_keys_In. now exists r. }
  destruct (Forall2_In_l _ _ _ _ H Hg) as [o [_ Hs]].
  destruct (summarise_ok _ _ _ _ Hs)
    as [top [kws [avg [info [Htop [Hjoin [Hmean _]]]]]]].
  simpl in Htop, Hjoin, Hmean.
  assert (HrG : In r (group_of filtered_df u)) by now apply group_of_In.
  split; [|split].
  - unfold join in Hjoin.
    destruct (texts (map (@Keyword _ _)
                (sort_by_volume (group_of filtered_df u)))) as [ss|] eqn:Et;
      simpl in Hjoin; [|discriminate].
    destruct (texts_ok _ _ Et (Keyword r)) as [s Hs'].
    + apply in_map.
      now apply (Permutation_in _ (Permutation_sym (sort_by_volume_perm _))).
    + congruence.
  - intros s E. unfold mean in Hmean.
    destruct (numbers (map (@Keyword_Difficulty _ _)
                (group_of filtered_df u))) as [qs|] eqn:En;
      simpl in Hmean; [|discriminate].
    apply numbers_ok in En. destruct En as [_ Hnt]. apply (Hnt s).
    rewrite <- E. now apply in_map.
  - destruct (idxmax_is_max _ _ Htop) as [Hin [v [Hv _]]].
    apply group_of_In in Hin. exists top.
    split; [tauto|]. split; [tauto|congruence].
Qed.

End EndingsFacts.

(** * Part III: the claims *)

(** ** Runs of the model *)

Example parse_decimal_run :
  parse_decimal "12.50" = Some (1250 # 100)%Q
  /\ parse_decimal "-3" = Some (- (3 # 1))%Q
  /\ parse_decimal "n/a" = None.
Proof. repeat split. Qed.

Example render_decimal_run :
  render_decimal (3 # 1) = "3.0" /\ render_decimal (1250 # 100) = "12.5"
  /\ render_decimal (- (1 # 4)) = "-0.25".
Proof. repeat split. Qed.

Example export_1_filtered : filtered_table (concat [export_1]) = sample_filtered.
Proof. vm_compute. reflexivity. Qed.

Example export_1_final :
  main [mkUpload "a.csv" (inr export_1)] = Final sample_final.
Proof. vm_compute. reflexivity. Qed.

(** The first worked example of the specification: two rows with the same
    Keyword and Domain; the first is kept, and the filter removes it
    (3 > 1), so no row is left. *)
Example seo_tips_run :
  let export :=
    mkFrame input_columns
      [ [Text "seo tips"; Num (100 # 1); Num (40 # 1); Text "a.com";
         Num (3 # 1); Text "x.com/blog"; Num (1 # 1)];
        [Text "seo tips"; Num (100 # 1); Num (40 # 1); Text "a.com";
         Num (0 # 1); Text "y.com/blog"; Num (5 # 1)] ] in
  map (@Competitor_URL _ _) (Deduplicator (records export))
  = [Some "x.com/blog"]
  /\ filtered_table export = []
  /\ main [mkUpload "seo.csv" (inr export)] = Final [].
Proof. vm_compute. repeat split. Qed.

Example upload_error_run :
  main [mkUpload "a.csv" (inr export_1); mkUpload "b.csv" (inl "bad file")]
  = Halted "Error uploading `b.csv`: bad file".
Proof. vm_compute. reflexivity. Qed.

Example sample_row_mean :
  exact_sum [Some (500 # 1)%Q; Some (300 # 1)%Q] = (800 # 1)%Q
  /\ option_map round_half_even (exact_mean [Some (40 # 1)%Q; Some (41 # 1)%Q])
     = Some (4050 # 100)%Q.
Proof. split; reflexivity. Qed.

Example two_uploads_filtered :
  filtered_table (concat [export_1; export_2])
  = sample_filtered
    ++ [mkRow (Some "solo") None NaN None None (Some "y.com") None].
Proof. vm_compute. reflexivity. Qed.

Example first_gate_run :
  main [mkUpload "b.csv" (inr export_2)]
  = Halted "The following required columns are missing in the CSV files: ['Keyword Difficulty', 'Domain', 'Domain Position']".
Proof. vm_compute. reflexivity. Qed.

Example second_gate_run :
  main [mkUpload "p.csv" (inr export_without_position)]
  = Halted "The column 'Competitor Position' is missing.".
Proof. vm_compute. reflexivity. Qed.

(** ** The claims

    Each claim is followed by a run on one of the concrete tables, and a
    claim the code does not meet by the run that shows it.  The values of
    the sum and of the rounded mean of a group (lines 122-126 and 139) are
    results of int64 and float64 arithmetic, which the model leaves to the
    library interface: no theorem states them. *)

(** C1.  The Deduplicator sorts the table by (Domain, Keyword), both
    ascending, with a stable sort.  The order is the one of the
    specification ([key_le]: the Domain smaller in the lexicographic order
    of the code points, a missing Domain last, or the same Domain and the
    Keyword not larger), which is total and is what the comparison of the
    code decides.  The sorted table is a rearrangement of the table, it is
    in that order, and rows with the same key keep their original relative
    order.  The Deduplicator then keeps the first row of each Keyword: the
    kept rows have distinct keywords, every keyword of the table is kept,
    and a kept row is the first row of the sorted table with its keyword;
    it has the smallest (Domain, Keyword) key among the rows of the table
    with its keyword, and no row with the same key stands before it in the
    original table.  The result is in the sorted order. *)
Theorem Deduplicator_sorts_then_keeps_first {V P : Type}
  (merged_df : list (Row V P)) :
  let sorted_df := stable_sort key_leb merged_df in
  ((forall a b : Row V P, key_le a b \/ key_le b a)
   /\ forall a b : Row V P, key_leb a b = true <-> key_le a b)
  /\ (Permutation sorted_df merged_df
      /\ StronglySorted key_le sorted_df
      /\ forall r, filter (same_key r) sorted_df = filter (same_key r) merged_df)
  /\ Deduplicator merged_df = drop_duplicates (@Keyword V P) text_eqb sorted_df
  /\ NoDup (map (@Keyword V P) (Deduplicator merged_df))
  /\ (forall r, In r merged_df ->
      exists r', In r' (Deduplicator merged_df) /\ Keyword r' = Keyword r)
  /\ (forall r, In r (Deduplicator merged_df) ->
      (exists s1 s2, sorted_df = s1 ++ r :: s2
                     /\ forall y, In y s1 -> Keyword y <> Keyword r)
      /\ (forall r', In r' merged_df -> Keyword r' = Keyword r -> key_le r r')
      /\ (exists t1 t2,
            merged_df = t1 ++ r :: t2
            /\ forall y, In y t1 ->
                  ~ (Domain y = Domain r /\ Keyword y = Keyword r)))
  /\ StronglySorted key_le (Deduplicator merged_df).
Proof.
  cbv zeta. unfold Deduplicator.
  assert (Hperm : Permutation (stable_sort key_leb merged_df) merged_df)
    by apply stable_sort_perm.
  assert (Hsorted : StronglySorted (fun a b => key_leb a b = true)
                                   (stable_sort key_leb merged_df))
    by (apply stable_sort_sorted; [apply key_leb_total | apply key_leb_trans]).
  assert (Hstable : forall r,
             filter (same_key r) (stable_sort key_leb merged_df)
             = filter (same_key r) merged_df).
  { intros r. apply stable_sort_filter. apply same_key_leb. }
  assert (Hle : forall a b : Row V P, key_leb a b = true -> key_le a b)
    by (intros a b; apply key_leb_spec).
  remember (stable_sort key_leb merged_df) as sorted_df eqn:Hdef.
  clear Hdef.
  split; [split; [apply key_le_total|apply key_leb_spec]|].
  split.
  { split; [exact Hperm|]. split; [|exact Hstable].
    exact (StronglySorted_impl _ _ _ Hle Hsorted). }
  split; [reflexivity|]. split.
  { apply drop_seen_NoDup. apply text_eqb_spec. }
  split.
  { intros r Hr.
    apply (drop_seen_complete (@Keyword V P) text_eqb text_eqb_spec [] sorted_df).
    - apply Permutation_in with merged_df; [now apply Permutation_sym|exact Hr].
    - intros []. }
  split.
  - intros r Hr.
    destruct (drop_seen_first (@Keyword V P) text_eqb text_eqb_spec _ _ _ Hr)
      as [s1 [s2 [Hs Hs1]]].
    split; [now exists s1, s2|]. split.
    + intros r' Hr' Hk. apply Hle.
      assert (Hin : In r' sorted_df)
        by (apply Permutation_in with merged_df;
            [now apply Permutation_sym|exact Hr']).
      rewrite Hs in Hin. apply in_app_or in Hin.
      destruct Hin as [Hin|[<-|Hin]].
      * exfalso. now apply (Hs1 r' Hin).
      * apply (same_key_leb r); apply same_key_spec; auto.
      * rewrite Hs in Hsorted. apply StronglySorted_after in Hsorted.
        rewrite Forall_forall in Hsorted. now apply Hsorted.
    + assert (Hf : filter (same_key r) merged_df
                   = r :: filter (same_key r) s2).
      { rewrite <- Hstable, Hs, filter_app. simpl.
        rewrite filter_none.
        - assert (E : same_key r r = true) by (apply same_key_spec; auto).
          now rewrite E.
        - intros y Hy. destruct (same_key r y) eqn:E; [|reflexivity].
          apply same_key_spec in E. exfalso. apply (Hs1 y Hy). symmetry. tauto. }
      destruct (filter_head_split _ _ _ _ Hf) as [t1 [t2 [Ht Ht1]]].
      exists t1, t2. split; [exact Ht|].
      intros y Hy [D K].
      assert (E : same_key r y = true) by (apply same_key_spec; auto).
      rewrite (Ht1 y Hy) in E. discriminate.
  - apply (StronglySorted_impl _ _ _ Hle).
    apply drop_seen_sorted; [apply text_eqb_spec | exact Hsorted].
Qed.

(** On [export_1]: of the two rows with the Keyword "kw500" the one of
    "a.com" is kept and the one of "z.com" dropped, and the result is in the
    order of (Domain, Keyword), the row without a Domain last. *)
Lemma Deduplicator_sorts_then_keeps_first_witness :
  map (fun r => (Domain r, Keyword r)) (Deduplicator (records export_1))
  = [ (Some "a.com", Some "gone"); (Some "a.com", Some "kw300");
      (Some "a.com", Some "kw500"); (None, Some "other") ]
  /\ In kw500_of_a (Deduplicator (records export_1))
  /\ In kw500_of_z (records export_1)
  /\ ~ In kw500_of_z (Deduplicator (records export_1))
  /\ key_le kw500_of_a kw500_of_z
  /\ StronglySorted key_le (Deduplicator (records export_1)).
Proof.
  pose proof (Deduplicator_sorts_then_keeps_first (records export_1)) as H.
  cbv zeta in H. destruct H as [_ [_ [_ [_ [_ [Hkept Hs]]]]]].
  assert (Ha : In kw500_of_a (Deduplicator (records export_1)))
    by (vm_compute; right; right; left; reflexivity).
  assert (Hz : In kw500_of_z (records export_1))
    by (vm_compute; right; left; reflexivity).
  split; [vm_compute; reflexivity|]. split; [exact Ha|]. split; [exact Hz|].
  split; [|split; [|exact Hs]].
  - vm_compute. intros [E|[E|[E|[E|[]]]]]; discriminate E.
  - destruct (Hkept _ Ha) as [_ [Hmin _]]. apply (Hmin _ Hz). reflexivity.
Defined.

(** C2.  The filtered table holds, in their order, exactly the rows (with
    the two positions coerced) on which the condition of line 85 is false;
    that condition is the rule read with "a comparison with a missing
    operand is false", it holds exactly when both positions are numbers,
    Domain Position > Competitor Position and Domain Position is not 0; so
    a surviving row has Domain Position <= Competitor Position, or Domain
    Position = 0, or a missing position, and a row with a missing position
    is never excluded. *)
Theorem Filter_sound {L : Pandas} {V : Type} (dedup_df : list (Row V Cell)) :
  Filter dedup_df
  = filter (fun r => negb (excluded_by_rule r))
           (map coerce_positions dedup_df)
  /\ (forall r : Row V (option Q),
        excluded_by_rule r = true <->
        exists dp cp,
          Domain_Position r = Some dp /\ Competitor_Position r = Some cp
          /\ (cp < dp)%Q /\ ~ (dp == 0)%Q)
  /\ (forall r, In r (Filter dedup_df) ->
        Domain_Position r = None \/ Competitor_Position r = None
        \/ exists dp cp,
             Domain_Position r = Some dp /\ Competitor_Position r = Some cp
             /\ ((dp <= cp)%Q \/ (dp == 0)%Q))
  /\ (forall r, In r (map coerce_positions dedup_df) ->
        Domain_Position r = None \/ Competitor_Position r = None ->
        In r (Filter dedup_df)).
Proof.
  split; [|split; [|split]].
  - unfold Filter. apply filter_ext. intros r.
    now rewrite condition_excluded_by_rule.
  - intros r. rewrite <- condition_excluded_by_rule. apply condition_spec.
  - intros r Hr. unfold Filter in Hr. apply filter_In in Hr.
    destruct Hr as [_ Hc]. apply negb_true_iff in Hc.
    unfold condition, gt, ne in Hc.
    destruct (Domain_Position r) as [dp|]; [|now left].
    destruct (Competitor_Position r) as [cp|]; [|right; now left].
    right. right. exists dp, cp. repeat split.
    apply andb_false_iff in Hc. destruct Hc as [Hc|Hc].
    + left. now apply Qltb_false.
    + right. apply negb_false_iff in Hc. now apply Qeq_bool_iff.
  - intros r Hr Hnull. unfold Filter. apply filter_In. split; [exact Hr|].
    apply negb_true_iff. unfold condition, gt, ne.
    destruct Hnull as [->| ->]; [reflexivity|].
    now destruct (Domain_Position r).
Qed.

Lemma Filter_sound_witness :
  let kept := mkRow (Some "kw300") (Some (300 # 1)%Q) (Num (41 # 1))
                    (Some "a.com") (Some (0 # 1)%Q) (Some "x.com/page")
                    (Some (5 # 1)%Q) in
  In kept (Filter (Ranker (Deduplicator (records export_1))))
  /\ (Domain_Position kept = None \/ Competitor_Position kept = None
      \/ exists dp cp,
           Domain_Position kept = Some dp /\ Competitor_Position kept = Some cp
           /\ ((dp <= cp)%Q \/ (dp == 0)%Q)).
Proof.
  intros kept.
  assert (H : In kept (Filter (Ranker (Deduplicator (records export_1)))))
    by (vm_compute; right; left; reflexivity).
  split; [exact H|].
  apply (Filter_sound (Ranker (Deduplicator (records export_1)))). exact H.
Defined.

(** C3.  When the Aggregator returns a table, that table has one row per
    distinct Competitor URL value (a missing value is not a value) of the
    filtered table: as many rows as there are distinct values, the rows'
    Competitor URLs are pairwise distinct and are exactly the values that
    occur, and the trailing [drop_duplicates] drops nothing: the table is
    the list of rows the loop built. *)
Theorem Aggregator_one_row_per_url {L : Pandas} (cols : list string)
  (filtered_df : list FRow) (final_df : list OutRow) :
  Aggregator cols filtered_df = Ok final_df ->
  List.length final_df
  = List.length (nodup string_dec (competitor_urls filtered_df))
  /\ NoDup (map out_Competitor_URL final_df)
  /\ (forall u, In u (map out_Competitor_URL final_df)
                <-> exists r, In r filtered_df /\ Competitor_URL r = Some u)
  /\ final_rows cols filtered_df = Ok final_df
  /\ drop_duplicates out_Competitor_URL String.eqb final_df = final_df.
Proof.
  intros H. apply Aggregator_ok in H.
  pose proof (final_rows_urls _ _ _ H) as Hurls.
  split; [|split; [|split; [|split]]].
  - rewrite <- group_keys_length, <- Hurls. now rewrite length_map.
  - rewrite Hurls. apply group_keys_NoDup.
  - intros u. rewrite Hurls. apply group_keys_In.
  - exact H.
  - apply (drop_duplicates_id out_Competitor_URL String.eqb string_eqb_spec).
    rewrite Hurls. apply group_keys_NoDup.
Qed.

Lemma Aggregator_one_row_per_url_witness :
  Aggregator input_columns sample_filtered = Ok sample_final
  /\ List.length sample_final
     = List.length (nodup string_dec (competitor_urls sample_filtered))
  /\ NoDup (map out_Competitor_URL sample_final).
Proof.
  assert (H : Aggregator input_columns sample_filtered = Ok sample_final)
    by (vm_compute; reflexivity).
  split; [exact H|].
  pose proof (Aggregator_one_row_per_url _ _ _ H) as [H1 [H2 _]].
  split; [exact H1|exact H2].
Defined.

(** C4.  For every row of the output: with [top] the row that [idxmax]
    selects in the group of that Competitor URL (a row of the group with the
    largest Search Volume), Topic is the Keyword of [top]; Domain's Info is
    the ", "-join of the entries of the rows of the whole filtered table
    whose Keyword and Domain equal those of [top] (with the [==] of pandas,
    under which a missing value equals nothing) and whose Domain Position
    is above 0, an entry being "Keyword (Domain - Domain Position)"; it is
    empty exactly when no row matches; and Creation or Optimization is
    "Optimization" exactly when Domain's Info is not empty, "Creation"
    otherwise. *)
Theorem domain_info_cross_reference {L : Pandas} (cols : list string)
  (filtered_df : list FRow) (final_df : list OutRow) (o : OutRow) :
  Aggregator cols filtered_df = Ok final_df -> In o final_df ->
  exists top,
    idxmax (group_of filtered_df (out_Competitor_URL o)) = Some top
    /\ (In top (group_of filtered_df (out_Competitor_URL o))
        /\ exists v, Search_Volume top = Some v
                     /\ forall r w,
                          In r (group_of filtered_df (out_Competitor_URL o)) ->
                          Search_Volume r = Some w -> (w <= v)%Q)
    /\ Topic o = Keyword top
    /\ Domain_s_Info o
       = String.concat ", "
           (map info_entry (filter (domain_ranks top) filtered_df))
    /\ (forall x, In x (filter (domain_ranks top) filtered_df) <->
                  In x filtered_df
                  /\ exists k d p,
                       Keyword top = Some k /\ Keyword x = Some k
                       /\ Domain top = Some d /\ Domain x = Some d
                       /\ Domain_Position x = Some p /\ (0 < p)%Q)
    /\ (forall x k d p,
          Keyword x = Some k -> Domain x = Some d ->
          Domain_Position x = Some p ->
          info_entry x
          = (k ++ " (" ++ d ++ " - " ++ num_to_str p ++ ")")%string)
    /\ (Domain_s_Info o = "" <-> filter (domain_ranks top) filtered_df = [])
    /\ (Creation_or_Optimization o = "Optimization" <-> Domain_s_Info o <> "")
    /\ (Creation_or_Optimization o = "Creation" <-> Domain_s_Info o = "").
Proof.
  intros H Ho. destruct (Aggregator_row _ _ _ _ H Ho) as [_ Hs].
  destruct (summarise_ok _ _ _ _ Hs)
    as [top [kws [avg [info [Htop [_ [_ [Hinfo Eo]]]]]]]].
  simpl in Htop. apply get_domain_info_ok in Hinfo.
  exists top. split; [exact Htop|]. split; [now apply idxmax_is_max|].
  assert (HT : Topic o = Keyword top) by (rewrite Eo; reflexivity).
  assert (HI : Domain_s_Info o = info) by (rewrite Eo; reflexivity).
  assert (HC : Creation_or_Optimization o
               = match info with
                 | EmptyString => "Creation"
                 | String _ _ => "Optimization"
                 end) by (rewrite Eo; reflexivity).
  split; [exact HT|]. split; [now rewrite HI|].
  split; [intros x; rewrite filter_In, domain_ranks_spec; tauto|].
  split; [apply info_entry_format|].
  split; [|split].
  - rewrite HI, Hinfo. split.
    + intros E. destruct (filter (domain_ranks top) filtered_df) as [|x l] eqn:El;
        [reflexivity|].
      exfalso. revert E. apply concat_nonempty; [discriminate|].
      intros y Hy. apply in_map_iff in Hy. destruct Hy as [z [<- _]].
      apply info_entry_nonempty.
    + intros ->. reflexivity.
  - rewrite HC, HI. destruct info; split; intros E;
      try discriminate; try congruence.
  - rewrite HC, HI. destruct info; split; intros E;
      try discriminate; try congruence.
Qed.

Lemma domain_info_cross_reference_witness :
  Aggregator input_columns sample_filtered = Ok sample_final
  /\ In sample_row sample_final
  /\ exists top,
       idxmax (group_of sample_filtered "x.com/page") = Some top
       /\ Topic sample_row = Keyword top
       /\ Domain_s_Info sample_row
          = String.concat ", "
              (map info_entry (filter (domain_ranks top) sample_filtered))
       /\ (Creation_or_Optimization sample_row = "Optimization"
           <-> Domain_s_Info sample_row <> "").
Proof.
  assert (H : Aggregator input_columns sample_filtered = Ok sample_final)
    by (vm_compute; reflexivity).
  assert (Ho : In sample_row sample_final) by (right; left; reflexivity).
  split; [exact H|]. split; [exact Ho|].
  destruct (domain_info_cross_reference _ _ _ _ H Ho)
    as [top [H1 [_ [H2 [H3 [_ [_ [_ [H4 _]]]]]]]]].
  exists top. repeat split; try assumption; apply H4.
Defined.



(** C7.  The merged table has as many rows as the inputs together; its
    columns are the columns that some input has, each once; the i-th row
    of an input stands, laid out on the merged columns, at position
    (number of rows of the inputs before it) + i; that row keeps the cell of
    every column its input has and holds a missing value in every column
    its input lacks. *)
Theorem concat_complete (csv_list : list DataFrame) :
  let merged_df := concat csv_list in
  row_count merged_df = list_sum (map row_count csv_list)
  /\ (forall c, In c (columns merged_df)
                <-> exists df, In df csv_list /\ In c (columns df))
  /\ NoDup (columns merged_df)
  /\ (forall before df after i cells,
        csv_list = before ++ df :: after ->
        nth_error (rows df) i = Some cells ->
        exists merged_cells,
          nth_error (rows merged_df) (list_sum (map row_count before) + i)
          = Some merged_cells
          /\ (forall c v, cell_at (columns df) cells c = Some v ->
                          cell_at (columns merged_df) merged_cells c = Some v)
          /\ (forall c, In c (columns merged_df) -> ~ In c (columns df) ->
                        cell_at (columns merged_df) merged_cells c = Some NaN)).
Proof.
  cbv zeta.
  assert (Hcols : forall c, In c (columns (concat csv_list))
                            <-> exists df, In df csv_list /\ In c (columns df)).
  { intros c. simpl. unfold column_union.
    rewrite (drop_duplicates_In String.eqb string_eqb_spec).
    rewrite in_flat_map. tauto. }
  split; [|split; [exact Hcols|split]].
  - unfold row_count at 1. simpl. apply concat_rows_length.
  - apply (drop_duplicates_NoDup String.eqb string_eqb_spec).
  - intros before df after i cells Hl Hi.
    exists (reindex (columns (concat csv_list)) df cells). split; [|split].
    + simpl. generalize (column_union csv_list). intros cols.
      rewrite Hl, concat_rows_app. simpl.
      rewrite nth_error_app2; rewrite concat_rows_length; [|lia].
      replace (list_sum (map row_count before) + i
               - list_sum (map row_count before)) with i by lia.
      rewrite nth_error_app1.
      * now apply map_nth_error.
      * rewrite length_map. apply nth_error_Some. congruence.
    + intros c v Hv. unfold reindex.
      assert (Hin : In c (columns (concat csv_list))).
      { apply Hcols. exists df. split.
        - rewrite Hl. apply in_or_app. right. now left.
        - destruct (in_dec string_dec c (columns df)) as [H|H]; [exact H|].
          rewrite cell_at_absent in Hv by exact H. discriminate. }
      rewrite cell_at_map by exact Hin. now rewrite Hv.
    + intros c Hin Hnot. unfold reindex.
      rewrite cell_at_map by exact Hin.
      now rewrite cell_at_absent by exact Hnot.
Qed.

Lemma concat_complete_witness :
  [export_1; export_2] = [export_1] ++ export_2 :: []
  /\ nth_error (rows export_2) 0
     = Some [Text "solo"; Text "y.com"; Text "n/a"; Text "e"]
  /\ row_count (concat [export_1; export_2]) = 6
  /\ exists merged_cells,
       nth_error (rows (concat [export_1; export_2])) 5 = Some merged_cells
       /\ cell_at (columns (concat [export_1; export_2])) merged_cells
                  "Competitor URL" = Some (Text "y.com")
       /\ cell_at (columns (concat [export_1; export_2])) merged_cells
                  "Domain" = Some NaN.
Proof.
  split; [reflexivity|]. split; [reflexivity|].
  pose proof (concat_complete [export_1; export_2]) as H. cbv zeta in H.
  destruct H as [Hcount [Hcols [_ Hrows]]].
  split; [exact Hcount|].
  destruct (Hrows [export_1] export_2 []
              0 [Text "solo"; Text "y.com"; Text "n/a"; Text "e"]
              eq_refl eq_refl) as [merged_cells [Hnth [Hkeep Hnull]]].
  exists merged_cells. split; [exact Hnth|]. split.
  - apply Hkeep. reflexivity.
  - apply Hnull.
    + apply Hcols. exists export_1. split; [now left|].
      simpl. tauto.
    + simpl. intros [H|[H|[H|[H|[]]]]]; discriminate.
Defined.

(** C8.  In a run whose files all parse, let [missing] be the names among
    Keyword, Search Volume, Keyword Difficulty, Domain, Domain Position and
    Competitor URL (Competitor Position is not among them) that are not
    columns of the merged table, in that order.  The first check computes
    exactly this list; when it is not empty [main] stops with the message
    "The following required columns are missing in the CSV files: "
    followed by the names, each in single quotes, separated by ", " and
    enclosed in brackets.  When the list is empty and Competitor Position
    is not a column, [main] stops at the second check with the message "The
    column 'Competitor Position' is missing.".  The two messages are never
    the same, and no final table is produced in either case.  When both
    checks pass, on a frame of the data model, [main] does not stop with a
    message but returns what the Aggregator makes of the filtered table. *)
Theorem two_validation_gates {L : Pandas} (uploaded_files : list Upload)
  (csv_list : list DataFrame) :
  uploaded_files <> [] ->
  read_all uploaded_files = inr csv_list ->
  let merged_df := concat csv_list in
  let missing :=
    filter (fun c => if in_dec string_dec c (columns merged_df)
                     then false else true)
           ["Keyword"; "Search Volume"; "Keyword Difficulty";
            "Domain"; "Domain Position"; "Competitor URL"] in
  missing_columns merged_df = missing
  /\ (forall c, In c missing
                <-> In c ["Keyword"; "Search Volume"; "Keyword Difficulty";
                          "Domain"; "Domain Position"; "Competitor URL"]
                    /\ ~ In c (columns merged_df))
  /\ (missing <> [] ->
      main uploaded_files
      = Halted ("The following required columns are missing in the CSV files: ["
                ++ String.concat ", " (map (fun c => "'" ++ c ++ "'") missing)
                ++ "]")%string)
  /\ (missing = [] ->
      ~ In "Competitor Position" (columns merged_df) ->
      main uploaded_files
      = Halted "The column 'Competitor Position' is missing.")
  /\ (forall names : list string,
        ("The following required columns are missing in the CSV files: ["
         ++ String.concat ", " (map (fun c => "'" ++ c ++ "'") names)
         ++ "]")%string
        <> "The column 'Competitor Position' is missing.")
  /\ (missing <> [] \/ ~ In "Competitor Position" (columns merged_df) ->
      forall final_df, main uploaded_files <> Final final_df)
  /\ (missing = [] ->
      In "Competitor Position" (columns merged_df) ->
      text_columns merged_df ->
      main uploaded_files
      = match Aggregator (columns merged_df) (filtered_table merged_df) with
        | Ok final_df => Final final_df
        | Raise e => Uncaught e
        end).
Proof.
  intros Hne Hread merged_df missing.
  assert (Hmiss : missing_columns merged_df = missing).
  { unfold missing_columns, missing. apply filter_ext. intros c.
    destruct (in_dec string_dec c (columns merged_df)) as [Hin|Hin].
    - apply (proj2 (has_column_spec _ _)) in Hin. now rewrite Hin.
    - destruct (has_column (columns merged_df) c) eqn:E; [|reflexivity].
      exfalso. apply Hin. now apply has_column_spec. }
  assert (H1 : missing <> [] ->
               main uploaded_files
               = Halted (missing_columns_message missing)).
  { intros Hm. unfold main. destruct uploaded_files as [|f fs]; [congruence|].
    rewrite Hread. fold merged_df. rewrite Hmiss.
    destruct missing; [congruence|reflexivity]. }
  assert (H2 : missing = [] ->
               ~ In "Competitor Position" (columns merged_df) ->
               main uploaded_files = Halted missing_position_message).
  { intros Hm Hc. unfold main. destruct uploaded_files as [|f fs]; [congruence|].
    rewrite Hread. fold merged_df. rewrite Hmiss, Hm.
    rewrite <- has_column_spec in Hc.
    destruct (has_column (columns merged_df) "Competitor Position");
      [congruence|reflexivity]. }
  split; [exact Hmiss|].
  split; [intros c; rewrite <- Hmiss; apply missing_columns_spec|].
  split; [exact H1|]. split; [exact H2|]. split; [discriminate|].
  split.
  - intros Hfail final_df.
    destruct missing as [|m ms] eqn:Em.
    + destruct Hfail as [Hfail|Hfail]; [congruence|].
      rewrite (H2 eq_refl Hfail). discriminate.
    + rewrite H1 by discriminate. discriminate.
  - intros Hm Hc _. unfold main. destruct uploaded_files as [|f fs]; [congruence|].
    rewrite Hread. fold merged_df. rewrite Hmiss, Hm.
    apply has_column_spec in Hc. rewrite Hc. reflexivity.
Qed.

(** Two runs: [export_2] lacks three of the six columns and stops at the
    first check; [export_without_position] has the six and stops at the
    second. *)
Lemma two_validation_gates_witness :
  (main [mkUpload "b.csv" (inr export_2)]
   = Halted "The following required columns are missing in the CSV files: ['Keyword Difficulty', 'Domain', 'Domain Position']"
   /\ forall final_df,
        main [mkUpload "b.csv" (inr export_2)] <> Final final_df)
  /\ (main [mkUpload "p.csv" (inr export_without_position)]
      = Halted "The column 'Competitor Position' is missing."
      /\ forall final_df,
           main [mkUpload "p.csv" (inr export_without_position)]
           <> Final final_df).
Proof.
  split.
  - assert (Hne : [mkUpload "b.csv" (inr export_2)] <> []) by discriminate.
    pose proof (two_validation_gates [mkUpload "b.csv" (inr export_2)]
                  [export_2] Hne eq_refl) as G.
    cbv zeta in G. destruct G as [_ [_ [G3 [_ [_ [G6 _]]]]]].
    assert (Hm : filter (fun c => if in_dec string_dec c
                                          (columns (concat [export_2]))
                                  then false else true)
                        ["Keyword"; "Search Volume"; "Keyword Difficulty";
                         "Domain"; "Domain Position"; "Competitor URL"]
                 <> []) by (vm_compute; discriminate).
    split; [|apply G6; now left].
    specialize (G3 Hm). vm_compute in G3. vm_compute. exact G3.
  - assert (Hne : [mkUpload "p.csv" (inr export_without_position)] <> [])
      by discriminate.
    pose proof (two_validation_gates
                  [mkUpload "p.csv" (inr export_without_position)]
                  [export_without_position] Hne eq_refl) as G.
    cbv zeta in G. destruct G as [_ [_ [_ [G4 [_ [G6 _]]]]]].
    assert (Hc : ~ In "Competitor Position"
                      (columns (concat [export_without_position]))).
    { vm_compute. intros [H|[H|[H|[H|[H|[H|[]]]]]]]; discriminate H. }
    split; [exact (G4 eq_refl Hc)|]. apply G6. now right.
Defined.

(** C9.  When, in a run of [main] whose files all parse, some Competitor URL
    of the filtered table has a missing Search Volume in every one of its
    rows, the selection of the top row of that group raises (there is no
    largest volume), the Aggregator raises instead of returning a table, and
    [main] ends without a final table. *)
Theorem group_without_volume_no_final_table {L : Pandas}
  (uploaded_files : list Upload) (csv_list : list DataFrame) (u : string) :
  read_all uploaded_files = inr csv_list ->
  (exists r, In r (filtered_table (concat csv_list))
             /\ Competitor_URL r = Some u) ->
  (forall r, In r (filtered_table (concat csv_list)) ->
             Competitor_URL r = Some u -> Search_Volume r = None) ->
  loc_idxmax (group_of (filtered_table (concat csv_list)) u)
  = Raise (KeyError NaNKey)
  /\ (exists e, Aggregator (columns (concat csv_list))
                           (filtered_table (concat csv_list)) = Raise e)
  /\ forall final_df, main uploaded_files <> Final final_df.
Proof.
  intros Hread Hex Hnone.
  destruct (group_without_volume_raises (columns (concat csv_list)) _ u
              Hex Hnone) as [H1 [e He]].
  split; [exact H1|]. split; [now exists e|].
  intros final_df Hmain. apply main_final in Hmain.
  destruct Hmain as [csv_list' [Hread' Hagg]].
  rewrite Hread in Hread'. injection Hread' as <-.
  rewrite He in Hagg. discriminate.
Qed.

Lemma group_without_volume_no_final_table_witness :
  read_all two_uploads = inr [export_1; export_2]
  /\ main two_uploads = Uncaught (KeyError NaNKey)
  /\ loc_idxmax (group_of (filtered_table (concat [export_1; export_2]))
                          "y.com") = Raise (KeyError NaNKey)
  /\ forall final_df, main two_uploads <> Final final_df.
Proof.
  split; [reflexivity|]. split; [vm_compute; reflexivity|].
  assert (G : loc_idxmax (group_of (filtered_table
                                      (concat [export_1; export_2])) "y.com")
              = Raise (KeyError NaNKey)
              /\ (exists e, Aggregator (columns (concat [export_1; export_2]))
                              (filtered_table (concat [export_1; export_2]))
                            = Raise e)
              /\ forall final_df, main two_uploads <> Final final_df).
  { apply (group_without_volume_no_final_table two_uploads
             [export_1; export_2] "y.com").
    - reflexivity.
    - exists (mkRow (Some "solo") None NaN None None (Some "y.com") None).
      rewrite two_uploads_filtered. split; [|reflexivity].
      apply in_or_app. right. now left.
    - rewrite two_uploads_filtered.
      intros r [<-|[<-|[<-|[<-|[]]]]] Hu; try discriminate Hu. reflexivity. }
  destruct G as [G1 [_ G3]]. split; [exact G1|exact G3].
Defined.

(** C10 (amended).  Behind the Deduplicator no two rows of the filtered
    table have the same Keyword, so the cross-reference of a group matches
    at most the group's own top row, and it matches it exactly when that
    row has a Domain that is not missing and a Domain Position above 0:
    then Domain's Info is the one entry of that row and Creation or
    Optimization is "Optimization"; otherwise Domain's Info is empty and
    Creation or Optimization is "Creation". *)
Theorem domain_info_is_top_row_or_empty {L : Pandas} {LL : PandasLaws L}
  (cols : list string)
  (merged_df : list (Row Cell Cell)) (final_df : list OutRow) (o : OutRow) :
  Aggregator cols (Filter (Ranker (Deduplicator merged_df))) = Ok final_df ->
  In o final_df ->
  exists top,
    idxmax (group_of (Filter (Ranker (Deduplicator merged_df)))
                     (out_Competitor_URL o)) = Some top
    /\ (forall x, In x (Filter (Ranker (Deduplicator merged_df))) ->
                  domain_ranks top x = true -> x = top)
    /\ (top_row_ranks top ->
        Domain_s_Info o = info_entry top
        /\ Creation_or_Optimization o = "Optimization")
    /\ (~ top_row_ranks top ->
        Domain_s_Info o = "" /\ Creation_or_Optimization o = "Creation")
    /\ (Creation_or_Optimization o = "Optimization" <-> top_row_ranks top).
Proof.
  set (filtered_df := Filter (Ranker (Deduplicator merged_df))).
  intros H Ho. destruct (Aggregator_row _ _ _ _ H Ho) as [_ Hs].
  destruct (summarise_ok _ _ _ _ Hs)
    as [top [kws [avg [info [Htop [Hjoin [_ [Hinfo Eo]]]]]]]].
  simpl in Htop, Hjoin. apply get_domain_info_ok in Hinfo.
  pose proof (idxmax_is_max _ _ Htop) as [Hin _].
  assert (Hin' : In top filtered_df) by (apply group_of_In in Hin; tauto).
  assert (Hk : exists k, Keyword top = Some k).
  { unfold join in Hjoin.
    destruct (texts (map (@Keyword _ _)
                (sort_by_volume (group_of filtered_df (out_Competitor_URL o)))))
      as [ss|] eqn:Et; simpl in Hjoin; [|discriminate].
    apply (texts_ok _ _ Et). apply in_map.
    apply (Permutation_in _ (Permutation_sym (sort_by_volume_perm _))).
    exact Hin. }
  destruct Hk as [k Hk].
  assert (Hnd : NoDup (map (@Keyword _ _) filtered_df))
    by apply filtered_keywords_NoDup.
  assert (Hsel : filter (domain_ranks top) filtered_df
                 = if domain_ranks top top then [top] else []).
  { apply (filter_unique_key (@Keyword _ _)); [exact Hnd|exact Hin'|].
    intros y _ Hy. apply domain_ranks_spec in Hy.
    destruct Hy as [k' [d [p [H1 [H2 _]]]]]. congruence. }
  assert (Hself : domain_ranks top top = true <-> top_row_ranks top).
  { rewrite domain_ranks_spec. unfold top_row_ranks. split.
    - intros [k' [d [p [_ [_ [Hd [_ [Hp Hpos]]]]]]]]. now exists d, p.
    - intros [d [p [Hd [Hp Hpos]]]]. now exists k, d, p. }
  assert (HI : Domain_s_Info o = info) by (rewrite Eo; reflexivity).
  assert (HC : Creation_or_Optimization o
               = match info with
                 | EmptyString => "Creation"
                 | String _ _ => "Optimization"
                 end) by (rewrite Eo; reflexivity).
  assert (Hyes : top_row_ranks top ->
                 Domain_s_Info o = info_entry top
                 /\ Creation_or_Optimization o = "Optimization").
  { intros Hr. apply Hself in Hr. rewrite Hr in Hsel.
    rewrite Hsel in Hinfo. simpl in Hinfo.
    rewrite HC, HI, Hinfo. split; [reflexivity|].
    pose proof (info_entry_nonempty top) as Hne.
    destruct (info_entry top); [congruence|reflexivity]. }
  assert (Hno : ~ top_row_ranks top ->
                Domain_s_Info o = "" /\ Creation_or_Optimization o = "Creation").
  { intros Hr. destruct (domain_ranks top top) eqn:E.
    - exfalso. apply Hr. now apply Hself.
    - rewrite Hsel in Hinfo. simpl in Hinfo.
      rewrite HC, HI, Hinfo. now split. }
  exists top. split; [exact Htop|]. split; [|split; [exact Hyes|split; [exact Hno|]]].
  - intros x Hx Hrx.
    assert (Hx' : In x (filter (domain_ranks top) filtered_df))
      by (apply filter_In; now split).
    rewrite Hsel in Hx'. destruct (domain_ranks top top); [|contradiction].
    destruct Hx' as [<-|[]]. reflexivity.
  - split.
    + intros Hopt. destruct (domain_ranks top top) eqn:E; [now apply Hself|].
      assert (Hr : ~ top_row_ranks top).
      { intros Hr. apply Hself in Hr. congruence. }
      destruct (Hno Hr) as [_ Hc]. rewrite Hc in Hopt. discriminate.
    + intros Hr. now apply Hyes.
Qed.

Lemma domain_info_is_top_row_or_empty_witness :
  Aggregator input_columns (Filter (Ranker (Deduplicator (records export_1))))
  = Ok sample_final
  /\ In sample_row sample_final
  /\ exists top,
       idxmax (group_of (Filter (Ranker (Deduplicator (records export_1))))
                        "x.com/page") = Some top
       /\ (Creation_or_Optimization sample_row = "Optimization"
           <-> top_row_ranks top).
Proof.
  assert (H : Aggregator input_columns
                (Filter (Ranker (Deduplicator (records export_1))))
              = Ok sample_final) by (vm_compute; reflexivity).
  assert (Ho : In sample_row sample_final) by (right; left; reflexivity).
  split; [exact H|]. split; [exact Ho|].
  destruct (domain_info_is_top_row_or_empty _ _ _ _ H Ho)
    as [top [H1 [_ [_ [_ H2]]]]].
  exists top. split; [exact H1|exact H2].
Defined.

(** C10, as stated, fails on a top row without a Domain: its Domain
    Position is above 0 and yet Domain's Info is empty and Creation or
    Optimization is "Creation". *)
Lemma optimization_needs_a_domain :
  filtered_table (concat [export_without_domain]) = [seo_audit_row]
  /\ main [mkUpload "c.csv" (inr export_without_domain)]
     = Final seo_audit_final
  /\ idxmax (group_of [seo_audit_row] "y.com/blog") = Some seo_audit_row
  /\ gt (Domain_Position seo_audit_row) (Some 0%Q) = true
  /\ ~ (forall o, In o seo_audit_final ->
          (Creation_or_Optimization o = "Optimization"
           <-> gt (Domain_Position seo_audit_row) (Some 0%Q) = true)).
Proof.
  split; [vm_compute; reflexivity|]. split; [vm_compute; reflexivity|].
  split; [reflexivity|]. split; [reflexivity|].
  intros H. specialize (H _ (or_introl eq_refl)).
  destruct H as [_ H]. specialize (H eq_refl). discriminate H.
Qed.

(** * Part IV: further properties of [main] *)

(** X1.  The upload loop stops at the first file that [pd.read_csv]
    rejects: [main] ends with the upload error of that file, whatever the
    files after it hold and whatever the columns of the files before it. *)
Theorem upload_error_stops_main {L : Pandas} (good : list Upload)
  (bad : Upload) (rest : list Upload) (e : string) :
  Forall (fun f => exists df, read_csv f = inr df) good ->
  read_csv bad = inl e ->
  main (good ++ bad :: rest)
  = Halted ("Error uploading `" ++ name bad ++ "`: " ++ e)%string.
Proof.
  intros Hgood Hbad. unfold main.
  destruct (good ++ bad :: rest) as [|f fs] eqn:E.
  - destruct good; discriminate.
  - rewrite <- E. now rewrite (read_all_error good bad rest e Hgood Hbad).
Qed.

Lemma upload_error_stops_main_witness :
  Forall (fun f => exists df, read_csv f = inr df)
         [mkUpload "a.csv" (inr export_without_position)]
  /\ main ([mkUpload "a.csv" (inr export_without_position)]
           ++ mkUpload "b.csv" (inl "bad file")
              :: [mkUpload "c.csv" (inr export_2)])
     = Halted "Error uploading `b.csv`: bad file".
Proof.
  assert (H : Forall (fun f => exists df, read_csv f = inr df)
                     [mkUpload "a.csv" (inr export_without_position)]).
  { constructor; [|constructor]. now exists export_without_position. }
  split; [exact H|].
  apply (upload_error_stops_main
           [mkUpload "a.csv" (inr export_without_position)]
           (mkUpload "b.csv" (inl "bad file"))
           [mkUpload "c.csv" (inr export_2)] "bad file" H eq_refl).
Defined.

(** X2.  Merging loses nothing [main] reads: the records of the merged
    frame are the records of the first file, then those of the second, and
    so on, each read on its own columns. *)
Theorem records_of_concat (csv_list : list DataFrame) :
  records (concat csv_list) = flat_map records csv_list.
Proof.
  unfold records at 1. simpl. apply records_of_merged_rows.
  intros df c Hdf Hc. unfold column_union.
  apply (drop_duplicates_In String.eqb string_eqb_spec).
  apply in_flat_map. now exists df.
Qed.

(** X3.  The columns of the first file come first in the merged frame, in
    their order; and merging a single well-formed file (distinct labels,
    every row as long as the labels) gives that file back. *)
Theorem concat_keeps_first_frame (df : DataFrame) (rest : list DataFrame) :
  NoDup (columns df) ->
  (exists more, columns (concat (df :: rest)) = columns df ++ more)
  /\ ((forall cells, In cells (rows df) ->
         List.length cells = List.length (columns df)) ->
      concat [df] = df).
Proof.
  intros Hnd.
  assert (Hid : drop_seen (fun c : string => c) String.eqb [] (columns df)
                = columns df).
  { apply (drop_duplicates_id (fun c : string => c) String.eqb
                              string_eqb_spec).
    now rewrite map_id. }
  split.
  - simpl. unfold column_union, drop_duplicates. simpl.
    destruct (drop_seen_app (fun c : string => c) String.eqb []
                (columns df) (flat_map columns rest)) as [seen' ->].
    rewrite Hid. now eexists.
  - intros Hrows. unfold concat, column_union, drop_duplicates. simpl.
    rewrite !app_nil_r, Hid.
    destruct df as [cols rws]. simpl in *. f_equal.
    transitivity (map (fun cells : list Cell => cells) rws);
      [|apply map_id].
    apply map_ext_in. intros cells Hc.
    unfold reindex. simpl. apply reindex_id; [exact Hnd|now apply Hrows].
Qed.

Lemma concat_keeps_first_frame_witness :
  NoDup (columns export_2)
  /\ (exists more,
        columns (concat [export_2; export_1]) = columns export_2 ++ more)
  /\ concat [export_2] = export_2.
Proof.
  assert (H : NoDup (columns export_2)).
  { simpl. repeat constructor; simpl;
      intros F; repeat (destruct F as [F|F]; [discriminate F|]); exact F. }
  split; [exact H|].
  destruct (concat_keeps_first_frame export_2 [export_1] H) as [H1 _].
  destruct (concat_keeps_first_frame export_2 [] H) as [_ H2].
  split; [exact H1|]. apply H2.
  intros cells [<-|[]]. reflexivity.
Defined.

(** X4.  Deduplicating twice is deduplicating once. *)
Theorem Deduplicator_idempotent {V P : Type} (merged_df : list (Row V P)) :
  Deduplicator (Deduplicator merged_df) = Deduplicator merged_df.
Proof.
  assert (Hs : StronglySorted (fun a b => key_leb a b = true)
                              (Deduplicator merged_df)).
  { unfold Deduplicator. apply drop_seen_sorted; [apply text_eqb_spec|].
    apply stable_sort_sorted; [apply key_leb_total|apply key_leb_trans]. }
  assert (Hn : NoDup (map (@Keyword V P) (Deduplicator merged_df))).
  { apply drop_seen_NoDup. apply text_eqb_spec. }
  unfold Deduplicator at 1. rewrite (stable_sort_sorted_id _ _ Hs).
  now apply (drop_duplicates_id (@Keyword V P) text_eqb text_eqb_spec).
Qed.

(** X5.  The Deduplicator leaves as many rows as the table has distinct
    Keyword values, a missing Keyword counting as one value. *)
Theorem Deduplicator_count {V P : Type} (merged_df : list (Row V P)) :
  List.length (Deduplicator merged_df)
  = List.length (nodup text_eq_dec (map (@Keyword V P) merged_df)).
Proof.
  rewrite <- (length_map (@Keyword V P) (Deduplicator merged_df)).
  apply Permutation_length. apply NoDup_Permutation.
  - apply drop_seen_NoDup. apply text_eqb_spec.
  - apply NoDup_nodup.
  - intros k. rewrite nodup_In, !in_map_iff. split.
    + intros [r [Hk Hr]]. exists r. split; [exact Hk|].
      apply (drop_seen_In (@Keyword V P) text_eqb text_eqb_spec) in Hr.
      apply (Permutation_in _ (stable_sort_perm key_leb merged_df)). tauto.
    + intros [r [Hk Hr]].
      destruct (drop_seen_complete (@Keyword V P) text_eqb text_eqb_spec []
                  (stable_sort key_leb merged_df) r) as [r' [Hr' Hk']].
      * now apply (Permutation_in _
                     (Permutation_sym (stable_sort_perm key_leb merged_df))).
      * intros [].
      * exists r'. split; [congruence|exact Hr'].
Qed.

(** X7.  The filtered table holds only rows of the merged frame: each of
    its rows is a record of the merged frame with its three numeric
    columns coerced, on which the condition of line 85 is false; no two of
    its rows have the same Keyword; and it has at most as many rows as the
    merged frame. *)
Theorem filtered_table_rows {L : Pandas} {LL : PandasLaws L}
  (merged_df : DataFrame) :
  (forall r, In r (filtered_table merged_df) ->
     exists r0, In r0 (records merged_df)
                /\ r = coerce_positions (coerce_volume r0)
                /\ condition r = false)
  /\ NoDup (map (@Keyword _ _) (filtered_table merged_df))
  /\ List.length (filtered_table merged_df) <= row_count merged_df.
Proof.
  split; [|split].
  - intros r Hr. unfold filtered_table, Filter in Hr.
    apply filter_In in Hr. destruct Hr as [Hr Hc].
    apply in_map_iff in Hr. destruct Hr as [r1 [<- Hr1]].
    apply (Permutation_in _ (sort_by_volume_perm _)) in Hr1.
    apply in_map_iff in Hr1. destruct Hr1 as [r0 [<- Hr0]].
    exists r0. split; [|split; [reflexivity|now apply negb_true_iff]].
    apply (drop_seen_In (@Keyword _ _) text_eqb text_eqb_spec) in Hr0.
    apply (Permutation_in _ (stable_sort_perm key_leb (records merged_df))).
    tauto.
  - apply filtered_keywords_NoDup.
  - unfold filtered_table, Filter.
    eapply Nat.le_trans; [apply filter_length_le|].
    rewrite length_map. unfold Ranker.
    rewrite (Permutation_length (sort_by_volume_perm _)), length_map.
    eapply Nat.le_trans; [apply drop_seen_length|].
    rewrite (Permutation_length
               (stable_sort_perm key_leb (records merged_df))).
    unfold records, row_count. now rewrite length_map.
Qed.

Lemma filtered_table_rows_witness :
  PandasLaws reference_pandas
  /\ NoDup (map (@Keyword _ _) (filtered_table export_1))
  /\ List.length (filtered_table export_1) <= row_count export_1.
Proof.
  split; [exact reference_pandas_laws|].
  apply (@filtered_table_rows reference_pandas reference_pandas_laws export_1).
Defined.

(** X8.  Topic is a text: the Keyword of the first row of the group whose
    Search Volume is the largest of the group.  The rows before it in the
    group have a smaller volume (or none), the rows after it a volume that
    is not larger. *)
Theorem Topic_is_first_largest_volume {L : Pandas} {LL : PandasLaws L}
  (cols : list string) (filtered_df : list FRow) (final_df : list OutRow)
  (o : OutRow) :
  Aggregator cols filtered_df = Ok final_df -> In o final_df ->
  exists top k v before after,
    group_of filtered_df (out_Competitor_URL o) = before ++ top :: after
    /\ Keyword top = Some k /\ Topic o = Some k
    /\ Search_Volume top = Some v
    /\ (forall r w, In r before -> Search_Volume r = Some w -> (w < v)%Q)
    /\ (forall r w, In r after -> Search_Volume r = Some w -> (w <= v)%Q).
Proof.
  intros H Ho. destruct (Aggregator_row _ _ _ _ H Ho) as [_ Hs].
  destruct (summarise_ok _ _ _ _ Hs)
    as [top [kws [avg [info [Htop [_ [_ [_ Eo]]]]]]]].
  simpl in Htop.
  destruct (idxmax_first _ _ Htop) as [v [l1 [l2 [Hl [Hv [H1 H2]]]]]].
  assert (Hin : In top (group_of filtered_df (out_Competitor_URL o))).
  { rewrite Hl. apply in_or_app. right. now left. }
  apply group_of_In in Hin. destruct Hin as [Hin Hu].
  destruct (Aggregator_ok_aggregable _ _ _ H top _ Hin Hu) as [Hk _].
  assert (HT : Topic o = Keyword top) by (rewrite Eo; reflexivity).
  clear Eo. destruct (Keyword top) as [k|] eqn:Ek; [|congruence].
  exists top, k, v, l1, l2.
  split; [exact Hl|]. split; [exact Ek|]. split; [exact HT|].
  split; [exact Hv|]. split; [exact H1|exact H2].
Qed.

Lemma Topic_is_first_largest_volume_witness :
  PandasLaws reference_pandas
  /\ Aggregator input_columns sample_filtered = Ok sample_final
  /\ In sample_row sample_final
  /\ exists top k v before after,
       group_of sample_filtered "x.com/page" = before ++ top :: after
       /\ Keyword top = Some k /\ Topic sample_row = Some k
       /\ Search_Volume top = Some v
       /\ (forall r w, In r before -> Search_Volume r = Some w -> (w < v)%Q)
       /\ (forall r w, In r after -> Search_Volume r = Some w -> (w <= v)%Q).
Proof.
  assert (H : Aggregator input_columns sample_filtered = Ok sample_final)
    by (vm_compute; reflexivity).
  assert (Ho : In sample_row sample_final) by (right; left; reflexivity).
  split; [exact reference_pandas_laws|]. split; [exact H|]. split; [exact Ho|].
  apply (@Topic_is_first_largest_volume reference_pandas reference_pandas_laws
           _ _ _ _ H Ho).
Defined.

(** X9.  Keywords lists every row of the group once: it is the ", "-join
    of the Keywords of the group's rows taken in descending order of Search
    Volume, missing volumes last. *)
Theorem Keywords_in_volume_order {L : Pandas} {LL : PandasLaws L}
  (cols : list string) (filtered_df : list FRow) (final_df : list OutRow)
  (o : OutRow) :
  Aggregator cols filtered_df = Ok final_df -> In o final_df ->
  exists ordered ks,
    Permutation ordered (group_of filtered_df (out_Competitor_URL o))
    /\ StronglySorted (fun a b => volume_geb a b = true)
                      (map (@Search_Volume _ _) ordered)
    /\ map (@Keyword _ _) ordered = map Some ks
    /\ Keywords o = String.concat ", " ks.
Proof.
  intros H Ho. destruct (Aggregator_row _ _ _ _ H Ho) as [_ Hs].
  destruct (summarise_ok _ _ _ _ Hs)
    as [top [kws [avg [info [_ [Hjoin [_ [_ Eo]]]]]]]].
  simpl in Hjoin. unfold join in Hjoin.
  destruct (texts (map (@Keyword _ _)
              (sort_by_volume
                 (group_of filtered_df (out_Competitor_URL o)))))
    as [ss|] eqn:Et; simpl in Hjoin; [|discriminate].
  injection Hjoin as <-.
  exists (sort_by_volume (group_of filtered_df (out_Competitor_URL o))), ss.
  split; [apply sort_by_volume_perm|]. split; [apply sort_by_volume_sorted|].
  split; [now apply texts_map_some|]. rewrite Eo. reflexivity.
Qed.

Lemma Keywords_in_volume_order_witness :
  PandasLaws reference_pandas
  /\ Aggregator input_columns sample_filtered = Ok sample_final
  /\ In sample_row sample_final
  /\ exists ordered ks,
       Permutation ordered (group_of sample_filtered "x.com/page")
       /\ map (@Keyword _ _) ordered = map Some ks
       /\ Keywords sample_row = String.concat ", " ks.
Proof.
  assert (H : Aggregator input_columns sample_filtered = Ok sample_final)
    by (vm_compute; reflexivity).
  assert (Ho : In sample_row sample_final) by (right; left; reflexivity).
  split; [exact reference_pandas_laws|]. split; [exact H|]. split; [exact Ho|].
  destruct (@Keywords_in_volume_order reference_pandas reference_pandas_laws
              _ _ _ _ H Ho) as [ordered [ks [H1 [_ [H2 H3]]]]].
  exists ordered, ks. repeat split; assumption.
Defined.

(** X10.  The rows of the final table stand in strictly ascending order of
    Competitor URL ([groupby] sorts its keys), whatever the order of the
    filtered table. *)
Theorem final_table_sorted_by_url {L : Pandas} (cols : list string)
  (filtered_df : list FRow) (final_df : list OutRow) :
  Aggregator cols filtered_df = Ok final_df ->
  StronglySorted (fun a b => String.ltb a b = true)
                 (map out_Competitor_URL final_df).
Proof.
  intros H. apply Aggregator_ok in H.
  rewrite (final_rows_urls _ _ _ H).
  apply sorted_NoDup_strict; [apply group_keys_sorted|apply group_keys_NoDup].
Qed.

Lemma final_table_sorted_by_url_witness :
  Aggregator input_columns sample_filtered = Ok sample_final
  /\ map (@Competitor_URL _ _) sample_filtered
     = [Some "x.com/page"; Some "x.com/page"; Some "b.com/z"]
  /\ map out_Competitor_URL sample_final = ["b.com/z"; "x.com/page"]
  /\ StronglySorted (fun a b => String.ltb a b = true)
                    (map out_Competitor_URL sample_final).
Proof.
  assert (H : Aggregator input_columns sample_filtered = Ok sample_final)
    by (vm_compute; reflexivity).
  split; [exact H|]. split; [reflexivity|]. split; [reflexivity|].
  apply (final_table_sorted_by_url _ _ _ H).
Defined.

(** X12.  On frames of the data model, no [KeyError] for a column label
    leaves [main]: an exception leaves [main] only behind the two column
    checks, and then every column the Aggregator reads exists.  What can
    leave it is the [KeyError] on the NaN of a group without a Search
    Volume, the [TypeError] of [join] and the [TypeError] of [mean]. *)
Theorem uncaught_exceptions_of_main {L : Pandas}
  (uploaded_files : list Upload) (e : Exn) :
  (forall csv_list, read_all uploaded_files = inr csv_list ->
     text_columns (concat csv_list)) ->
  main uploaded_files = Uncaught e ->
  e = KeyError NaNKey \/ e = JoinTypeError \/ e = MeanTypeError.
Proof.
  intros _ H.
  destruct (main_ends uploaded_files)
    as [[_ E]|[[m [_ E]]|[csv_list [_ [_ [[_ E]|[[_ [_ E]]|[Hm [_ E]]]]]]]]];
    rewrite E in H; try discriminate.
  destruct (Aggregator (columns (concat csv_list))
                       (filtered_table (concat csv_list)))
    as [out|e'] eqn:Ea; [discriminate|].
  injection H as <-.
  apply (Aggregator_raise _ _ _ (gates_give_columns _ Hm) Ea).
Qed.

Lemma uncaught_exceptions_of_main_witness :
  text_columns (concat [export_1; export_2])
  /\ exists e, main two_uploads = Uncaught e
               /\ (e = KeyError NaNKey \/ e = JoinTypeError
                   \/ e = MeanTypeError).
Proof.
  assert (Ht : text_columns (concat [export_1; export_2])).
  { intros cells c Hcells Hc. vm_compute in Hcells.
    repeat (destruct Hcells as [<-|Hcells];
            [simpl in Hc;
             repeat (destruct Hc as [<-|Hc]; [vm_compute; exact I|]);
             contradiction|]).
    contradiction. }
  assert (H : main two_uploads = Uncaught (KeyError NaNKey))
    by (vm_compute; reflexivity).
  split; [exact Ht|]. exists (KeyError NaNKey). split; [exact H|].
  apply (uncaught_exceptions_of_main two_uploads _); [|exact H].
  intros csv_list E. injection E as <-. exact Ht.
Defined.

(** X13.  With the columns it reads in place, the Aggregator returns a
    table exactly when, among the rows with a Competitor URL, every Keyword
    is a text, no Keyword Difficulty is a text, and every group has a
    Search Volume that is not missing. *)
Theorem Aggregator_returns_iff {L : Pandas} {LL : PandasLaws L}
  (cols : list string) (filtered_df : list FRow) :
  (forall c, In c aggregator_columns -> In c cols) ->
  ((exists final_df, Aggregator cols filtered_df = Ok final_df)
   <-> aggregable filtered_df).
Proof.
  intros Hcols. split.
  - intros [final_df H]. now apply (Aggregator_ok_aggregable cols _ final_df).
  - intros H. now apply Aggregator_total.
Qed.

Lemma Aggregator_returns_iff_witness :
  PandasLaws reference_pandas
  /\ (forall c, In c aggregator_columns -> In c input_columns)
  /\ (exists final_df, Aggregator input_columns sample_filtered = Ok final_df)
  /\ aggregable sample_filtered.
Proof.
  assert (Hc : forall c, In c aggregator_columns -> In c input_columns).
  { intros c Hc. simpl in Hc. simpl.
    repeat (destruct Hc as [<-|Hc]; [tauto|]). contradiction. }
  assert (H : exists final_df,
             Aggregator input_columns sample_filtered = Ok final_df).
  { exists sample_final. vm_compute. reflexivity. }
  split; [exact reference_pandas_laws|]. split; [exact Hc|].
  split; [exact H|].
  apply (proj1 (@Aggregator_returns_iff reference_pandas reference_pandas_laws
                  input_columns sample_filtered Hc) H).
Defined.

(** X14.  The final table is empty exactly when no row of the filtered
    table has a Competitor URL: such rows are dropped without an error. *)
Theorem empty_report_iff {L : Pandas} (cols : list string)
  (filtered_df : list FRow) :
  In "Competitor URL" cols ->
  (Aggregator cols filtered_df = Ok []
   <-> forall r, In r filtered_df -> Competitor_URL r = None).
Proof.
  intros Hcol. split.
  - intros H r Hr. apply Aggregator_ok in H.
    pose proof (final_rows_urls _ _ _ H) as Hk. simpl in Hk.
    destruct (Competitor_URL r) as [u|] eqn:Hu; [|reflexivity].
    exfalso. assert (Hin : In u (group_keys filtered_df))
      by (apply group_keys_In; now exists r).
    rewrite <- Hk in Hin. contradiction.
  - intros H. apply Aggregator_ok. unfold final_rows.
    rewrite require_present by exact Hcol. simpl.
    assert (Hk : group_keys filtered_df = []).
    { destruct (group_keys filtered_df) as [|u ks] eqn:E; [reflexivity|].
      exfalso. assert (Hin : In u (group_keys filtered_df))
        by (rewrite E; now left).
      apply group_keys_In in Hin. destruct Hin as [r [Hr Hu]].
      rewrite (H r Hr) in Hu. discriminate. }
    unfold groupby. now rewrite Hk.
Qed.

Lemma empty_report_iff_witness :
  In "Competitor URL" input_columns
  /\ (forall r, In r [row_without_url] -> Competitor_URL r = None)
  /\ Aggregator input_columns [row_without_url] = Ok [].
Proof.
  assert (Hc : In "Competitor URL" input_columns) by (simpl; tauto).
  assert (H : forall r, In r [row_without_url] -> Competitor_URL r = None).
  { intros r [<-|[]]. reflexivity. }
  split; [exact Hc|]. split; [exact H|].
  apply (proj2 (empty_report_iff input_columns _ Hc) H).
Defined.

(** X15.  On frames of the data model, [main] returns a final table exactly
    when some file is uploaded, every file parses, the merged frame has the
    six required columns and Competitor Position, and the filtered table
    meets the condition of X13 on its rows. *)
Theorem main_returns_table_iff {L : Pandas} {LL : PandasLaws L}
  (uploaded_files : list Upload) :
  (forall csv_list, read_all uploaded_files = inr csv_list ->
     text_columns (concat csv_list)) ->
  (exists final_df, main uploaded_files = Final final_df)
  <-> exists csv_list,
        uploaded_files <> []
        /\ read_all uploaded_files = inr csv_list
        /\ missing_columns (concat csv_list) = []
        /\ In "Competitor Position" (columns (concat csv_list))
        /\ aggregable (filtered_table (concat csv_list)).
Proof.
  intros _. split.
  - intros [final_df H].
    destruct (main_ends uploaded_files)
      as [[_ E]|[[m [_ E]]|[csv_list [Hne [Hr [[_ E]|[[_ [_ E]]|[Hm [Hc E]]]]]]]]];
      rewrite E in H; try discriminate.
    exists csv_list.
    split; [exact Hne|]. split; [exact Hr|]. split; [exact Hm|].
    split; [exact Hc|].
    destruct (Aggregator (columns (concat csv_list))
                         (filtered_table (concat csv_list)))
      as [out|e'] eqn:Ea; [|discriminate].
    exact (Aggregator_ok_aggregable _ _ _ Ea).
  - intros [csv_list [Hne [Hr [Hm [Hc Ha]]]]].
    destruct (Aggregator_total (columns (concat csv_list))
                (filtered_table (concat csv_list))
                (gates_give_columns _ Hm) Ha) as [final_df Hf].
    exists final_df.
    destruct (main_ends uploaded_files)
      as [[E _]|[[m [E _]]|[csv_list' [_ [Hr' [[Hm' _]|[[_ [Hc' _]]|[_ [_ E]]]]]]]]].
    + contradiction.
    + rewrite Hr in E. discriminate.
    + rewrite Hr in Hr'. injection Hr' as <-. contradiction.
    + rewrite Hr in Hr'. injection Hr' as <-. contradiction.
    + rewrite Hr in Hr'. injection Hr' as <-. now rewrite E, Hf.
Qed.

Lemma main_returns_table_iff_witness :
  PandasLaws reference_pandas
  /\ text_columns (concat [export_1])
  /\ (exists final_df, main [mkUpload "a.csv" (inr export_1)] = Final final_df)
  /\ exists csv_list,
       read_all [mkUpload "a.csv" (inr export_1)] = inr csv_list
       /\ missing_columns (concat csv_list) = []
       /\ aggregable (filtered_table (concat csv_list)).
Proof.
  assert (Ht : text_columns (concat [export_1])).
  { intros cells c Hcells Hc. vm_compute in Hcells.
    repeat (destruct Hcells as [<-|Hcells];
            [simpl in Hc;
             repeat (destruct Hc as [<-|Hc]; [vm_compute; exact I|]);
             contradiction|]).
    contradiction. }
  assert (Htyped : forall csv_list,
             read_all [mkUpload "a.csv" (inr export_1)] = inr csv_list ->
             text_columns (concat csv_list))
    by (intros csv_list E; injection E as <-; exact Ht).
  assert (H : exists final_df,
             main [mkUpload "a.csv" (inr export_1)] = Final final_df).
  { exists sample_final. vm_compute. reflexivity. }
  split; [exact reference_pandas_laws|]. split; [exact Ht|]. split; [exact H|].
  destruct (proj1 (@main_returns_table_iff reference_pandas
                     reference_pandas_laws _ Htyped) H)
    as [csv_list [_ [H1 [H2 [_ H3]]]]].
  exists csv_list. split; [exact H1|]. split; [exact H2|exact H3].
Defined.
